(** * The task resolution and execution engine of [task.go]

    A shallow embedding of [RunTask], [isTaskUpToDate], [runCommand] and
    [Run] together with the collaborators they call, and the properties
    of the runner stated in the specification. *)

From Stdlib Require Import ZArith String Ascii Lia.
From stdpp Require Import base option list gmap sets strings.

Local Open Scope string_scope.
#[local] Set Warnings "-clear-no-such-hyp".

(** ** Data model *)

(** [type Task struct].  The field [Set] is spelled [Set_]. *)
Record Task := mkTask {
  Cmds : list string;
  Deps : list string;
  Sources : list string;
  Generates : list string;
  Dir : string;
  Variables : gmap string string;
  Set_ : string
}.

(** [time.Time], as an offset from the zero instant of the type. *)
Definition Time := Z.
Definition zeroTime : Time := 0%Z.
Definition IsZero (t : Time) : bool := (t =? 0)%Z.
Definition After (t u : Time) : bool := (u <? t)%Z.

(** [exec.Cmd] as far as [runCommand] fills it in. *)
Record Cmd := mkCmd {
  cmdName : string;
  cmdArgs : list string;
  cmdDir : string
}.

Definition dquote : string := String (ascii_of_nat 34) EmptyString.
Definition NUL : ascii := ascii_of_nat 0.
Definition EQUALS : ascii := ascii_of_nat 61.

Fixpoint hasByte (b : ascii) (s : string) : bool :=
  match s with
  | EmptyString => false
  | String c s' => if Ascii.eqb c b then true else hasByte b s'
  end.

(** [os.Setenv]: the system call layer refuses (EINVAL) an empty key, a
    key holding an equals sign or a NUL byte, and a value holding a NUL
    byte; the environment is then left as it was. *)
Definition setenvOK (key value : string) : bool :=
  negb (String.eqb key "") && negb (hasByte EQUALS key)
  && negb (hasByte NUL key) && negb (hasByte NUL value).

Definition os_Setenv (key value : string) (e : gmap string string)
  : gmap string string :=
  if setenvOK key value then <[key := value]> e else e.

(** Go's [error] values as [RunTask] builds and returns them; the errors
    of the operating system and of the libraries are the [ExtErr]. *)
Inductive error (ExtErr : Type) :=
| taskNotFoundError (taskName : string)
| taskRunError (taskName : string) (err : error ExtErr)
| errorString (msg : string)
| externalError (e : ExtErr).
Arguments taskNotFoundError {ExtErr} taskName.
Arguments taskRunError {ExtErr} taskName err.
Arguments errorString {ExtErr} msg.
Arguments externalError {ExtErr} e.

(** What the process does that can be seen from outside, in order. *)
Inductive Event :=
| EvVisit (name : string)           (* runTasks[name] = true *)
| EvLog (msg : string)              (* log.Printf *)
| EvExec (c : Cmd)                  (* cmd.Output() *)
| EvPrint (out : string)            (* fmt.Println *)
| EvSetenv (key value : string).    (* os.Setenv *)

(** The package-level variable [runTasks], the process environment, the
    file system, and the events so far. *)
Record State (FS : Type) := mkState {
  runTasks : gset string;
  environ : gmap string string;
  files : FS;
  trace : list Event
}.
Arguments mkState {FS} runTasks environ files trace.
Arguments runTasks {FS} s.
Arguments environ {FS} s.
Arguments files {FS} s.
Arguments trace {FS} s.

(** ** The outside world

    The file system [FS] is kept abstract.  A [Host] gathers what
    [task.go] takes from outside the file:
    - [ShExists] and [ShPath], as [init] leaves them;
    - [cmd_Output], the method [Output] of [exec.Cmd]: it runs the
      process in the given environment and file system and returns the
      captured standard output or the failure, and the file system the
      process leaves behind;
    - [handleVariables] (a method of [Task]) and [ReplaceVariables],
      defined in another file of the package, which may consult the
      process environment;
    - [getPatternsMaxTime] and [getPatternsMinTime], likewise;
    - the registry [Tasks], which is not written while tasks run. *)
Class Host (FS ExtErr : Type) := mkHost {
  ShExists : bool;
  ShPath : string;
  cmd_Output : Cmd → gmap string string → FS → (string + ExtErr) * FS;
  handleVariables :
    Task → gmap string string → FS → gmap string string + error ExtErr;
  ReplaceVariables :
    string → gmap string string → gmap string string → string;
  getPatternsMaxTime : list string → FS → Time * option (error ExtErr);
  getPatternsMinTime : list string → FS → Time * option (error ExtErr);
  Tasks : gmap string Task
}.

Section Runner.

Context {FS ExtErr : Type} {host : Host FS ExtErr}.

Implicit Types (st : State FS) (name : string) (t : Task).

Definition cyclicError (name : string) : error ExtErr :=
  taskRunError name (errorString "Cyclic dependency detected").

(** ** State updates *)

Definition emit (e : Event) (st : State FS) : State FS :=
  mkState (runTasks st) (environ st) (files st) (trace st ++ [e]).

(** [runTasks[name] = true] *)
Definition markRun (name : string) (st : State FS) : State FS :=
  mkState ({[name]} ∪ runTasks st) (environ st) (files st)
          (trace st ++ [EvVisit name]).

Definition log_Printf (msg : string) (st : State FS) : State FS :=
  emit (EvLog msg) st.

Definition fmt_Println (out : string) (st : State FS) : State FS :=
  emit (EvPrint (out +:+ String (ascii_of_nat 10) EmptyString)) st.

Definition do_Setenv (key value : string) (st : State FS) : State FS :=
  mkState (runTasks st) (os_Setenv key value (environ st)) (files st)
          (trace st ++ [EvSetenv key value]).

(** ** [isTaskUpToDate] *)

(** [err != nil] *)
Definition notNil (err : option (error ExtErr)) : bool :=
  match err with Some _ => true | None => false end.

Definition isTaskUpToDate (t : Task) (fs : FS) : bool :=
  if (length (Sources t) =? 0)%nat || (length (Generates t) =? 0)%nat
  then false
  else
    let '(sourcesMaxTime, err) := getPatternsMaxTime (Sources t) fs in
    if notNil err || IsZero sourcesMaxTime then false
    else
      let '(generatesMinTime, err) := getPatternsMinTime (Generates t) fs in
      if notNil err || IsZero generatesMinTime then false
      else After generatesMinTime sourcesMaxTime.

(** ** [runCommand] *)

(** The [exec.Cmd] that [runCommand] builds. *)
Definition shellCommand (c path : string) : Cmd :=
  let cmd :=
    if ShExists then mkCmd ShPath ["-c"; c] ""
    else mkCmd "cmd" ["/C"; c] "" in
  if negb (String.eqb path "")
  then mkCmd (cmdName cmd) (cmdArgs cmd) path else cmd.

Definition runCommand (c path : string) (st : State FS)
  : string * option (error ExtErr) * State FS :=
  let cmd := shellCommand c path in
  let '(b, fs') := cmd_Output cmd (environ st) (files st) in
  let st' := mkState (runTasks st) (environ st) fs'
                     (trace st ++ [EvExec cmd]) in
  match b with
  | inr err => ("", Some (externalError err), st')
  | inl b => (b, None, st')
  end.

(** ** [RunTask] *)

Definition upToDateMsg (name : string) : string :=
  "Task " +:+ dquote +:+ name +:+ dquote +:+ " is up to date".

(** The loop over [t.Cmds]. *)
Fixpoint runCmds (name : string) (t : Task) (cs : list string) (st : State FS)
  : option (error ExtErr) * State FS :=
  match cs with
  | [] => (None, st)
  | c :: cs' =>
      match handleVariables t (environ st) (files st) with
      | inr err => (Some (taskRunError name err), st)
      | inl vars =>
          let '(output, err, st1) :=
            runCommand (ReplaceVariables c vars (environ st))
                       (ReplaceVariables (Dir t) vars (environ st)) st in
          match err with
          | Some err => (Some (taskRunError name err), st1)
          | None =>
              let st2 := fmt_Println output st1 in
              let st3 :=
                if negb (String.eqb (Set_ t) "")
                then do_Setenv (Set_ t) output st2 else st2 in
              runCmds name t cs' st3
          end
      end
  end.

(** The loop over [t.Deps], over the recursive call [run]. *)
Fixpoint runDeps (run : string → State FS → option (option (error ExtErr) * State FS))
    (vars : gmap string string) (ds : list string) (st : State FS)
  : option (option (error ExtErr) * State FS) :=
  match ds with
  | [] => Some (None, st)
  | d :: ds' =>
      match run (ReplaceVariables d vars (environ st)) st with
      | None => None
      | Some (Some err, st') => Some (Some err, st')
      | Some (None, st') => runDeps run vars ds' st'
      end
  end.

(** [RunTask] recurses through the dependencies, so the embedding counts
    the nesting of calls: [None] stands for a nesting deeper than [fuel]. *)
Fixpoint RunTask_fuel (fuel : nat) (name : string) (st : State FS)
  : option (option (error ExtErr) * State FS) :=
  match fuel with
  | O => None
  | S fuel' =>
      if decide (name ∈ runTasks st) then Some (Some (cyclicError name), st)
      else
        let st := markRun name st in
        match Tasks !! name with
        | None => Some (Some (taskNotFoundError name), st)
        | Some t =>
            if isTaskUpToDate t (files st)
            then Some (None, log_Printf (upToDateMsg name) st)
            else
              match handleVariables t (environ st) (files st) with
              | inr err => Some (Some (taskRunError name err), st)
              | inl vars =>
                  match runDeps (RunTask_fuel fuel') vars (Deps t) st with
                  | None => None
                  | Some (Some err, st') => Some (Some err, st')
                  | Some (None, st') => Some (runCmds name t (Cmds t) st')
                  end
              end
        end
  end.

(** The loop over [t.Deps] again, over a recursive call that returns. *)
Fixpoint forDeps (run : string → State FS → option (error ExtErr) * State FS)
    (vars : gmap string string) (ds : list string) (st : State FS)
  : option (error ExtErr) * State FS :=
  match ds with
  | [] => (None, st)
  | d :: ds' =>
      match run (ReplaceVariables d vars (environ st)) st with
      | (Some err, st') => (Some err, st')
      | (None, st') => forDeps run vars ds' st'
      end
  end.

(** Every call marks a name that was not marked, or returns at once, so
    the calls never nest deeper than the registry has tasks: [RunTask]
    is [RunTask_fuel] at a depth that is always enough
    (see [RunTask_fuel_enough]). *)
Definition RunTask (name : string) (st : State FS) : option (error ExtErr) * State FS :=
  match RunTask_fuel (S (size Tasks)) name st with
  | Some r => r
  | None => (None, st)
  end.

(** ** [Run]

    The loop of [Run] over the command-line arguments, once the registry
    is read; [log.Fatal] ends the process with the error. *)
Fixpoint runArgs (args : list string) (st : State FS) : option (error ExtErr) * State FS :=
  match args with
  | [] => (None, st)
  | a :: args' =>
      match RunTask a st with
      | (Some err, st') => (Some err, st')
      | (None, st') => runArgs args' st'
      end
  end.

Definition Run (args : list string) (st : State FS) : option (error ExtErr) * State FS :=
  if (length args =? 0)%nat
  then (Some (errorString "No argument given"), st)
  else runArgs args st.

(** ** What a call leaves behind *)

(** The names marked by a run of events. *)
Definition visits (evs : list Event) : list string :=
  omap (λ e, match e with EvVisit n => Some n | _ => None end) evs.

(** The commands started by a run of events. *)
Definition execs (evs : list Event) : list Cmd :=
  omap (λ e, match e with EvExec c => Some c | _ => None end) evs.

(** [grows st st']: [st'] is [st] after more events, which mark only
    names that were not marked, each once, and [runTasks] has gained
    exactly those names and lost none. *)
Definition grows (st st' : State FS) : Prop :=
  ∃ evs : list Event, trace st' = (trace st ++ evs)%list
       ∧ NoDup (visits evs)
       ∧ (∀ n, n ∈ visits evs → n ∉ runTasks st)
       ∧ runTasks st' = runTasks st ∪ list_to_set (visits evs).

(** The tasks of the registry that are not marked yet. *)
Definition pending (st : State FS) : nat := size (dom Tasks ∖ runTasks st).

(** The states a process goes through from [st] by calling [RunTask] any
    number of times, on any names. *)
Inductive later_in_run (st : State FS) : State FS → Prop :=
| later_now : later_in_run st st
| later_call st1 name r st2 :
    later_in_run st st1 → RunTask name st1 = (r, st2) →
    later_in_run st st2.

End Runner.

(** ** The variable resolver and the glob helpers, after the specification *)

Section Resolver.

(** Modelled from the spec: the lookup of a variable by [ReplaceVariables],
    which is not in [task.go].  A name is looked up in the variables of
    the task first, and in the variables exported to the process if it
    is not found there. *)
Definition lookupVar (vars env : gmap string string) (name : string)
  : option string :=
  match vars !! name with
  | Some v => Some v
  | None => env !! name
  end.

Definition LBRACE : ascii := ascii_of_nat 123.
Definition RBRACE : ascii := ascii_of_nat 125.

(** [s] starts with a closing pair of braces. *)
Definition startsClosing (s : string) : bool :=
  match s with
  | String c (String c' _) => Ascii.eqb c RBRACE && Ascii.eqb c' RBRACE
  | _ => false
  end.

(** The text before the first closing pair of braces of [s], if any. *)
Fixpoint closing (s : string) : option string :=
  match s with
  | EmptyString => None
  | String c s' =>
      if startsClosing s then Some EmptyString
      else option_map (String c) (closing s')
  end.

(** Modelled from the spec: the scan of [ReplaceVariables], which is not
    in [task.go].  One pass from left to right; [skip] counts the
    characters of a replaced placeholder still to pass over.  The
    replacement is not read again. *)
Fixpoint substFrom (resolve : string → option string) (skip : nat)
    (s : string) : string :=
  match s with
  | EmptyString => EmptyString
  | String c s' =>
      match skip with
      | S k => substFrom resolve k s'
      | O =>
          match s' with
          | String c' rest =>
              if Ascii.eqb c LBRACE && Ascii.eqb c' LBRACE then
                match closing rest with
                | Some name =>
                    match resolve name with
                    | Some v =>
                        v +:+ substFrom resolve (String.length name + 3) s'
                    | None => String c (substFrom resolve 0 s')
                    end
                | None => String c (substFrom resolve 0 s')
                end
              else String c (substFrom resolve 0 s')
          | EmptyString => String c EmptyString
          end
      end
  end.

(** Modelled from the spec: [ReplaceVariables], the [Substitute] of the
    specification, is not in [task.go].  It replaces every placeholder
    token [{{VAR}}] by the value of [VAR], in a single pass from left to
    right without expanding again, and leaves a placeholder that does not
    resolve as it is. *)
Definition Substitute (template : string) (vars env : gmap string string)
  : string :=
  substFrom (lookupVar vars env) 0 template.


(** Modelled from the spec: [handleVariables], the [Resolve] of the
    specification, is not in [task.go].  It starts from the static
    variables of the task and overlays nothing else. *)
Definition Resolve {FS ExtErr : Type} (t : Task)
    (env : gmap string string) (fs : FS)
  : gmap string string + error ExtErr :=
  inl (Variables t).

Context {FS ExtErr : Type}.

(** [filepath.Glob] on the file system, and the modification time that
    [os.Stat] reports for a path. *)
Variable glob : string → FS → list string + ExtErr.
Variable modTime : FS → string → Time.

(** Modelled from the spec: the expansion of the patterns by
    [getPatternsMaxTime] and [getPatternsMinTime], which are not in
    [task.go].  The files matched by a list of patterns, or the first
    glob error. *)
Fixpoint globAll (patterns : list string) (fs : FS)
  : list string + ExtErr :=
  match patterns with
  | [] => inl []
  | p :: ps =>
      match glob p fs with
      | inr e => inr e
      | inl found =>
          match globAll ps fs with
          | inr e => inr e
          | inl more => inl (found ++ more)%list
          end
      end
  end.

(** The latest and the earliest of a list of times; the zero time for no
    time at all. *)
Fixpoint latest (ts : list Time) : Time :=
  match ts with
  | [] => zeroTime
  | [t] => t
  | t :: ts' => Z.max t (latest ts')
  end.

Fixpoint earliest (ts : list Time) : Time :=
  match ts with
  | [] => zeroTime
  | [t] => t
  | t :: ts' => Z.min t (earliest ts')
  end.

(** Modelled from the spec: [getPatternsMaxTime] is not in [task.go].  It
    expands the patterns by globbing and computes the maximum
    modification time among the matched files; a glob error is
    returned, and no match gives the zero time, which [isTaskUpToDate]
    tests for. *)
Definition specPatternsMaxTime (patterns : list string) (fs : FS)
  : Time * option (error ExtErr) :=
  match globAll patterns fs with
  | inr e => (zeroTime, Some (externalError e))
  | inl found => (latest (modTime fs <$> found), None)
  end.

(** Modelled from the spec: [getPatternsMinTime] is not in [task.go].  It
    is [getPatternsMaxTime] with the minimum. *)
Definition specPatternsMinTime (patterns : list string) (fs : FS)
  : Time * option (error ExtErr) :=
  match globAll patterns fs with
  | inr e => (zeroTime, Some (externalError e))
  | inl found => (earliest (modTime fs <$> found), None)
  end.




(** The host whose resolver and glob helpers are the ones above. *)
Definition specHost (shExists : bool) (shPath : string)
    (output : Cmd → gmap string string → FS → (string + ExtErr) * FS)
    (tasks : gmap string Task) : Host FS ExtErr :=
  {| ShExists := shExists;
     ShPath := shPath;
     cmd_Output := output;
     handleVariables := Resolve;
     ReplaceVariables := Substitute;
     getPatternsMaxTime := specPatternsMaxTime;
     getPatternsMinTime := specPatternsMinTime;
     Tasks := tasks |}.

End Resolver.

(** ** A small concrete host

    Files are a map from path to modification time; a pattern matches
    the file of that very name; the shell knows [echo], and [find] with
    NUL-terminated output in a directory that is empty, and fails on
    every other command. *)

Definition newline : string := String (ascii_of_nat 10) EmptyString.

Definition literalGlob (pat : string) (fs : gmap string Time)
  : list string + string :=
  match fs !! pat with
  | Some _ => inl [pat]
  | None => inl []
  end.

Definition statTime (fs : gmap string Time) (p : string) : Time :=
  default zeroTime (fs !! p).

Definition miniShell (c : Cmd) (env : gmap string string)
    (fs : gmap string Time) : (string + string) * gmap string Time :=
  match cmdArgs c with
  | [_; script] =>
      if String.prefix "echo " script
      then (inl (String.substring 5 (String.length script - 5) script
                 +:+ newline), fs)
      else if String.eqb script "find . -print0"
      then (inl (String "." (String NUL EmptyString)), fs)
      else (inr "exit status 1", fs)
  | _ => (inr "exit status 2", fs)
  end.

Definition miniHost (tasks : gmap string Task)
  : Host (gmap string Time) string :=
  specHost literalGlob statTime true "/bin/sh" miniShell tasks.

Definition state0 (fs : gmap string Time) : State (gmap string Time) :=
  mkState ∅ ∅ fs [].

Definition withDeps (ds : list string) : Task :=
  mkTask [] ds [] [] "" ∅ "".

Definition withCmds (cs : list string) : Task :=
  mkTask cs [] [] [] "" ∅ "".

(** [a] needs [b] and [c], and both need [d]. *)
Definition diamond : gmap string Task :=
  <["a" := withDeps ["b"; "c"]]>
  (<["b" := withDeps ["d"]]>
  (<["c" := withDeps ["d"]]>
  (<["d" := withCmds ["echo d"]]> ∅))).

(** [a] needs [b] and [b] needs [a]. *)
Definition cycleAB : gmap string Task :=
  <["a" := withDeps ["b"]]> (<["b" := withDeps ["a"]]> ∅).

(** A registry has no cycle when its tasks can be ranked so that every
    task ranks above the tasks it names as dependencies. *)
Definition acyclic (tasks : gmap string Task) : Prop :=
  ∃ rank : string → nat,
    ∀ a t d, tasks !! a = Some t → d ∈ Deps t → (rank d < rank a)%nat.

(** A task whose output is newer than its source, and one whose second
    command fails. *)
Definition inOut : gmap string Time :=
  <["in.txt" := 10%Z]> (<["out.txt" := 20%Z]> ∅).

Definition buildTask : Task :=
  mkTask ["echo building"] ["prepare"] ["in.txt"] ["out.txt"] "" ∅ "".

Definition upToDateRegistry : gmap string Task :=
  <["build" := buildTask]> ∅.

Definition failing : gmap string Task :=
  <["all" := withDeps ["lint"; "test"; "pack"]]>
  (<["lint" := withCmds ["echo linting"]]>
  (<["test" := withCmds ["echo testing"; "false"; "echo unreachable"]]>
  (<["pack" := withCmds ["echo packing"]]> ∅))).

(** [app] needs [lib]. *)
Definition chain : gmap string Task :=
  <["app" := mkTask ["echo app"; "echo done"] ["lib"] [] [] "" ∅ ""]>
  (<["lib" := withCmds ["echo lib"]]> ∅).

(** A task that captures the output of its commands, under a name the
    environment takes and under one it does not. *)
Definition capture : gmap string Task :=
  <["t" := mkTask ["echo 42"; "echo got {{RESULT}}"] [] [] [] "" ∅ "RESULT"]> ∅.



(** ** The rest of [task.go] *)

(** The method [Error] of [taskNotFoundError] and of [taskRunError];
    [extError] gives the message of an error of the libraries, and the
    verb [%v] prints the message of the wrapped error. *)
Fixpoint Error {ExtErr : Type} (extError : ExtErr → string)
    (err : error ExtErr) : string :=
  match err with
  | taskNotFoundError taskName =>
      "Task " +:+ dquote +:+ taskName +:+ dquote +:+ " not found"
  | taskRunError taskName err' =>
      "Failed to run task " +:+ dquote +:+ taskName +:+ dquote +:+ ": "
      +:+ Error extError err'
  | errorString msg => msg
  | externalError e => extError e
  end.

(** [ErrNoTaskFile]; the variable is initialised when the package is, from
    the initial value of [TaskFilePath]. *)
Definition ErrNoTaskFile {ExtErr : Type} : error ExtErr :=
  errorString ("no task file found (is it named '" +:+ "Taskfile" +:+ "'?)").

(** What [init] and [readTaskfile] take from outside: [exec.LookPath],
    the variable [TaskFilePath], [ioutil.ReadFile] on the file system,
    and the three decoders, each giving the registry it has filled in and
    its error. *)
Class Loader (FS ExtErr : Type) := mkLoader {
  exec_LookPath : string → string * option ExtErr;
  TaskFilePath : string;
  ioutil_ReadFile : string → FS → string + ExtErr;
  yaml_Unmarshal : string → gmap string Task * option ExtErr;
  json_Unmarshal : string → gmap string Task * option ExtErr;
  toml_Unmarshal : string → gmap string Task * option ExtErr
}.

Section Program.

Context {FS ExtErr : Type} {host : Host FS ExtErr} {loader : Loader FS ExtErr}.



(** The host after the assignment to [Tasks] in [Run]. *)
Definition withTasks (tasks : gmap string Task) : Host FS ExtErr :=
  {| ShExists := ShExists;
     ShPath := ShPath;
     cmd_Output := cmd_Output;
     handleVariables := handleVariables;
     ReplaceVariables := ReplaceVariables;
     getPatternsMaxTime := getPatternsMaxTime;
     getPatternsMinTime := getPatternsMinTime;
     Tasks := tasks |}.

Definition decoded (res : gmap string Task * option ExtErr)
  : gmap string Task * option (error ExtErr) :=
  (fst res, externalError <$> snd res).

(** [readTaskfile]; the error of a read is dropped by the inner [err],
    and the registry returned beside the error of a decoder is the one
    the decoder has filled in. *)
Definition readTaskfile (fs : FS)
  : gmap string Task * option (error ExtErr) :=
  match ioutil_ReadFile (TaskFilePath +:+ ".yml") fs with
  | inl b => decoded (yaml_Unmarshal b)
  | inr _ =>
      match ioutil_ReadFile (TaskFilePath +:+ ".json") fs with
      | inl b => decoded (json_Unmarshal b)
      | inr _ =>
          match ioutil_ReadFile (TaskFilePath +:+ ".toml") fs with
          | inl b => decoded (toml_Unmarshal b)
          | inr _ => (∅, Some ErrNoTaskFile)
          end
      end
  end.

(** [Run] with the reading of the task file; [log.Fatal] ends the
    process with its argument, given here as the result. *)
Definition RunProgram (args : list string) (st : State FS)
  : option (error ExtErr) * State FS :=
  if (length args =? 0)%nat
  then (Some (errorString "No argument given"), st)
  else
    let '(tasks, err) := readTaskfile (files st) in
    match err with
    | Some err => (Some err, st)
    | None => runArgs (host := withTasks tasks) args st
    end.

(** The lines printed and the variables set by a run of events. *)
Definition prints (evs : list Event) : list string :=
  omap (λ e, match e with EvPrint out => Some out | _ => None end) evs.

Definition setenvs (evs : list Event) : list (string * string) :=
  omap (λ e, match e with EvSetenv k v => Some (k, v) | _ => None end) evs.

(** The events of a call: as many lines printed as commands started, or
    one less when the last command failed, and no more variables set
    than lines printed. *)
Definition balanced (r : option (error ExtErr)) (evs : list Event) : Prop :=
  (length (prints evs) ≤ length (execs evs))%nat
  ∧ (length (execs evs) ≤ S (length (prints evs)))%nat
  ∧ (r = None → length (execs evs) = length (prints evs))
  ∧ (length (setenvs evs) ≤ length (prints evs))%nat.

(** [loopOver Q vars ds st r st']: the loop over the dependencies [ds]
    from [st] ends with [r] in [st'], and [Q] holds of every call of
    [RunTask] in it. *)
Inductive loopOver
    (Q : string → State FS → option (error ExtErr) → State FS → Prop)
    (vars : gmap string string)
  : list string → State FS → option (error ExtErr) → State FS → Prop :=
| loop_done st : loopOver Q vars [] st None st
| loop_fail d ds st err st' :
    RunTask (ReplaceVariables d vars (environ st)) st = (Some err, st') →
    Q (ReplaceVariables d vars (environ st)) st (Some err) st' →
    loopOver Q vars (d :: ds) st (Some err) st'
| loop_next d ds st st1 r st' :
    RunTask (ReplaceVariables d vars (environ st)) st = (None, st1) →
    Q (ReplaceVariables d vars (environ st)) st None st1 →
    loopOver Q vars ds st1 r st' →
    loopOver Q vars (d :: ds) st r st'.

End Program.

(** Loaders for the small host: a file reads as its own name, the YAML
    decoder fails, and the other two give a registry. *)
Definition miniLoader : Loader (gmap string Time) string :=
  {| exec_LookPath := λ file, ("/bin/" +:+ file, None);
     TaskFilePath := "Taskfile";
     ioutil_ReadFile := λ path fs,
       match fs !! path with
       | Some _ => inl path
       | None => inr "no such file"
       end;
     yaml_Unmarshal := λ b, (∅, Some "yaml: did not find expected key");
     json_Unmarshal := λ b, (chain, None);
     toml_Unmarshal := λ b, (diamond, None) |}.

Definition noShell : Loader (gmap string Time) string :=
  {| exec_LookPath := λ file, ("", Some "executable file not found in $PATH");
     TaskFilePath := "Taskfile";
     ioutil_ReadFile := λ path fs, inr "no such file";
     yaml_Unmarshal := λ b, (∅, None);
     json_Unmarshal := λ b, (∅, None);
     toml_Unmarshal := λ b, (∅, None) |}.

Definition jsonOnly : gmap string Time := <["Taskfile.json" := 5%Z]> ∅.

Definition yamlAndJson : gmap string Time :=
  <["Taskfile.yml" := 5%Z]> (<["Taskfile.json" := 5%Z]> ∅).

(** * Properties *)

Section RunnerFacts.

Context {FS ExtErr : Type} {host : Host FS ExtErr}.

Implicit Types (st : State FS) (name : string) (t : Task)
  (evs : list Event) (r : option (error ExtErr)).

(** ** The marks only grow *)

Lemma visits_app evs1 evs2 :
  visits (evs1 ++ evs2) = (visits evs1 ++ visits evs2)%list.
Proof. unfold visits. apply omap_app. Qed.

Lemma execs_app evs1 evs2 :
  execs (evs1 ++ evs2) = (execs evs1 ++ execs evs2)%list.
Proof. unfold execs. apply omap_app. Qed.

Lemma grows_refl st : grows st st.
Proof.
  exists []. rewrite app_nil_r. cbn. repeat split.
  - constructor.
  - intros n Hn. inversion Hn.
  - set_solver.
Qed.

Lemma grows_trans st1 st2 st3 :
  grows st1 st2 → grows st2 st3 → grows st1 st3.
Proof.
  intros (e1 & Ht1 & Hnd1 & Hnew1 & Hr1) (e2 & Ht2 & Hnd2 & Hnew2 & Hr2).
  exists (e1 ++ e2)%list. rewrite visits_app. repeat split.
  - rewrite Ht2, Ht1. by rewrite app_assoc.
  - apply NoDup_app. split; [done|]. split; [|done].
    intros n Hn1 Hn2. apply (Hnew2 n Hn2). rewrite Hr1. set_solver.
  - intros n [Hn|Hn]%elem_of_app; [by apply Hnew1|].
    specialize (Hnew2 n Hn). rewrite Hr1 in Hnew2. set_solver.
  - rewrite Hr2, Hr1, list_to_set_app_L. set_solver.
Qed.

(** A step that marks nothing. *)
Lemma grows_quiet st st' evs :
  runTasks st' = runTasks st → trace st' = (trace st ++ evs)%list →
  visits evs = [] → grows st st'.
Proof.
  intros Hr Ht Hv. exists evs. rewrite Hv. repeat split; try done.
  - constructor.
  - intros n Hn. inversion Hn.
  - rewrite Hr. set_solver.
Qed.

Lemma grows_markRun name st :
  name ∉ runTasks st → grows st (markRun name st).
Proof.
  intros Hn. exists [EvVisit name]. cbn. repeat split.
  - apply NoDup_singleton.
  - intros n ->%list_elem_of_singleton. done.
  - set_solver.
Qed.

Lemma grows_subseteq st st' : grows st st' → runTasks st ⊆ runTasks st'.
Proof. intros (e & _ & _ & _ & ->). set_solver. Qed.

Lemma grows_pending st st' : grows st st' → (pending st' ≤ pending st)%nat.
Proof.
  intros Hg%grows_subseteq. unfold pending.
  apply subseteq_size. set_solver.
Qed.

Lemma pending_markRun name st t :
  name ∉ runTasks st → Tasks !! name = Some t →
  (pending (markRun name st) < pending st)%nat.
Proof.
  intros Hn Ht. unfold pending. apply subset_size. cbn.
  assert (name ∈ dom Tasks) by (apply elem_of_dom; eauto).
  set_solver.
Qed.

Lemma pending_le_size st : (pending st ≤ size Tasks)%nat.
Proof.
  unfold pending. rewrite <- size_dom. apply subseteq_size. set_solver.
Qed.

Lemma runCommand_grows c path st out err st' :
  runCommand c path st = (out, err, st') → grows st st'.
Proof.
  unfold runCommand. intros Hrun.
  destruct (cmd_Output _ _ _) as [[b|e] fs'] in Hrun; simplify_eq;
    by eapply grows_quiet.
Qed.

Lemma runCommand_environ c path st out err st' :
  runCommand c path st = (out, err, st') → environ st' = environ st.
Proof.
  unfold runCommand. intros Hrun.
  destruct (cmd_Output _ _ _) as [[b|e] fs'] in Hrun; by simplify_eq.
Qed.

Lemma fmt_Println_grows out st : grows st (fmt_Println out st).
Proof. by eapply grows_quiet. Qed.

Lemma do_Setenv_grows k v st : grows st (do_Setenv k v st).
Proof. by eapply grows_quiet. Qed.

Lemma log_Printf_grows msg st : grows st (log_Printf msg st).
Proof. by eapply grows_quiet. Qed.

Lemma runCmds_grows name t cs st r st' :
  runCmds name t cs st = (r, st') → grows st st'.
Proof.
  revert st. induction cs as [|c cs IH]; intros st Hrun; cbn in Hrun.
  - simplify_eq. apply grows_refl.
  - destruct (handleVariables t _ _) as [vars|e]; [|simplify_eq; apply grows_refl].
    destruct (runCommand _ _ st) as [[out err] st1] eqn:Hc.
    apply runCommand_grows in Hc.
    destruct err as [e|]; [by simplify_eq|].
    apply IH in Hrun. eapply grows_trans; [exact Hc|].
    eapply grows_trans; [apply fmt_Println_grows|].
    destruct (negb _); [|done].
    eapply grows_trans; [apply do_Setenv_grows|done].
Qed.

Lemma runDeps_grows run vars ds st r st' :
  (∀ n s r' s', run n s = Some (r', s') → grows s s') →
  runDeps run vars ds st = Some (r, st') → grows st st'.
Proof.
  intros Hrun. revert st. induction ds as [|d ds IH]; intros st Hds; cbn in Hds.
  - simplify_eq. apply grows_refl.
  - destruct (run _ st) as [[[e|] s1]|] eqn:Hd; [| |done].
    + simplify_eq. by eapply Hrun.
    + eapply grows_trans; [by eapply Hrun|by apply IH].
Qed.

Lemma RunTask_fuel_grows fuel name st r st' :
  RunTask_fuel fuel name st = Some (r, st') → grows st st'.
Proof.
  revert name st r st'. induction fuel as [|fuel IH]; intros name st r st' Hrun;
    [done|].
  cbn in Hrun. case_decide as Hin; [simplify_eq; apply grows_refl|].
  pose proof (grows_markRun name st Hin) as Hm.
  destruct (Tasks !! name) as [t|]; [|by simplify_eq].
  destruct (isTaskUpToDate t _).
  { simplify_eq. eapply grows_trans; [exact Hm|apply log_Printf_grows]. }
  destruct (handleVariables t _ _) as [vars|e]; [|by simplify_eq].
  destruct (runDeps _ vars (Deps t) _) as [[[e|] s1]|] eqn:Hd; [| |done].
  - simplify_eq. eapply grows_trans; [exact Hm|].
    eapply runDeps_grows; [|exact Hd]. intros; by eapply IH.
  - inversion Hrun as [Hc]. apply runCmds_grows in Hc.
    eapply grows_trans; [exact Hm|]. eapply grows_trans; [|exact Hc].
    eapply runDeps_grows; [|exact Hd]. intros; by eapply IH.
Qed.

(** ** [RunTask] returns *)

Lemma runDeps_mono run run' vars ds st res :
  (∀ n s res', run n s = Some res' → run' n s = Some res') →
  runDeps run vars ds st = Some res → runDeps run' vars ds st = Some res.
Proof.
  intros Hle. revert st. induction ds as [|d ds IH]; intros st Hds;
    cbn in *; [done|].
  destruct (run _ st) as [[[e|] s1]|] eqn:Hd; [| |done];
    rewrite (Hle _ _ _ Hd); [done|by apply IH].
Qed.

(** More fuel changes nothing once the call has returned. *)
Lemma RunTask_fuel_mono fuel fuel' name st res :
  (fuel ≤ fuel')%nat →
  RunTask_fuel fuel name st = Some res → RunTask_fuel fuel' name st = Some res.
Proof.
  revert fuel' name st res.
  induction fuel as [|fuel IH]; intros fuel' name st res Hle Hrun; [done|].
  destruct fuel' as [|fuel']; [lia|].
  cbn in *. case_decide; [done|].
  destruct (Tasks !! name) as [t|]; [|done].
  destruct (isTaskUpToDate t _); [done|].
  destruct (handleVariables t _ _) as [vars|e]; [|done].
  destruct (runDeps (RunTask_fuel fuel) _ _ _) as [res1|] eqn:Hd; [|done].
  erewrite runDeps_mono; [exact Hrun| |exact Hd].
  intros n s res' Hn. apply IH; [lia|done].
Qed.

Lemma runDeps_returns fuel vars ds st :
  (∀ n s, (pending s < fuel)%nat → is_Some (RunTask_fuel fuel n s)) →
  (pending st < fuel)%nat →
  is_Some (runDeps (RunTask_fuel fuel) vars ds st).
Proof.
  intros Hrun. revert st. induction ds as [|d ds IH]; intros st Hp; cbn;
    [by eexists|].
  destruct (Hrun (ReplaceVariables d vars (environ st)) st Hp)
    as [[[e|] s1] Hd]; rewrite Hd; [by eexists|].
  apply IH. apply RunTask_fuel_grows, grows_pending in Hd. lia.
Qed.

(** The nesting of calls is bounded by the tasks still to be marked. *)
Lemma RunTask_fuel_returns fuel name st :
  (pending st < fuel)%nat → is_Some (RunTask_fuel fuel name st).
Proof.
  revert name st. induction fuel as [|fuel IH]; intros name st Hp; [lia|].
  cbn. case_decide as Hin; [by eexists|].
  destruct (Tasks !! name) as [t|] eqn:Ht; [|by eexists].
  destruct (isTaskUpToDate t _); [by eexists|].
  destruct (handleVariables t _ _) as [vars|e]; [|by eexists].
  pose proof (pending_markRun name st t Hin Ht) as Hlt.
  destruct (runDeps_returns fuel vars (Deps t) (markRun name st))
    as [[[e|] s1] Hd]; [by apply IH|lia| |]; cbn in Hd; rewrite Hd;
    by eexists.
Qed.

Lemma RunTask_fuel_enough fuel name st :
  (pending st < fuel)%nat →
  RunTask_fuel fuel name st = Some (RunTask name st).
Proof.
  intros Hp. destruct (RunTask_fuel_returns fuel name st Hp) as [res Hres].
  rewrite Hres. f_equal. unfold RunTask.
  pose proof (pending_le_size st) as Hsz.
  destruct (RunTask_fuel_returns (S (size Tasks)) name st) as [res' Hres'];
    [lia|].
  rewrite Hres'.
  destruct (decide (fuel ≤ S (size Tasks))%nat) as [Hle|Hle].
  - apply (RunTask_fuel_mono _ _ _ _ _ Hle) in Hres. congruence.
  - apply (RunTask_fuel_mono _ fuel) in Hres'; [congruence|lia].
Qed.

Lemma RunTask_grows name st r st' :
  RunTask name st = (r, st') → grows st st'.
Proof.
  intros Hrun. eapply (RunTask_fuel_grows (S (size Tasks)) name).
  rewrite RunTask_fuel_enough; [by rewrite Hrun|].
  pose proof (pending_le_size st). lia.
Qed.

Lemma runDeps_forDeps fuel vars ds st :
  (pending st < fuel)%nat →
  runDeps (RunTask_fuel fuel) vars ds st = Some (forDeps RunTask vars ds st).
Proof.
  revert st. induction ds as [|d ds IH]; intros st Hp; cbn; [done|].
  rewrite RunTask_fuel_enough by done.
  destruct (RunTask _ st) as [[e|] s1] eqn:Hd; [done|].
  apply IH. apply RunTask_grows, grows_pending in Hd. lia.
Qed.

(** The body of [RunTask], line by line. *)
Lemma RunTask_unfold name st :
  RunTask name st =
    if decide (name ∈ runTasks st) then (Some (cyclicError name), st)
    else
      let st := markRun name st in
      match Tasks !! name with
      | None => (Some (taskNotFoundError name), st)
      | Some t =>
          if isTaskUpToDate t (files st)
          then (None, log_Printf (upToDateMsg name) st)
          else
            match handleVariables t (environ st) (files st) with
            | inr err => (Some (taskRunError name err), st)
            | inl vars =>
                match forDeps RunTask vars (Deps t) st with
                | (Some err, st') => (Some err, st')
                | (None, st') => runCmds name t (Cmds t) st'
                end
            end
      end.
Proof.
  unfold RunTask at 1. cbn. case_decide as Hin; [done|].
  destruct (Tasks !! name) as [t|] eqn:Ht; [|done].
  destruct (isTaskUpToDate t _); [done|].
  destruct (handleVariables t _ _) as [vars|e]; [|done].
  rewrite runDeps_forDeps.
  - by destruct (forDeps _ _ _ _) as [[e|] s1].
  - pose proof (pending_markRun name st t Hin Ht).
    pose proof (pending_le_size st). lia.
Qed.

Lemma forDeps_grows vars ds st r st' :
  forDeps RunTask vars ds st = (r, st') → grows st st'.
Proof.
  revert st. induction ds as [|d ds IH]; intros st Hds; cbn in Hds.
  - simplify_eq. apply grows_refl.
  - destruct (RunTask _ st) as [[e|] s1] eqn:Hd.
    + simplify_eq. by eapply RunTask_grows.
    + eapply grows_trans; [by eapply RunTask_grows|by apply IH].
Qed.

Lemma later_in_run_grows st st' : later_in_run st st' → grows st st'.
Proof.
  induction 1 as [|s1 n r s2 _ IH Hcall]; [apply grows_refl|].
  eapply grows_trans; [exact IH|by eapply RunTask_grows].
Qed.

(** ** The steps of [RunTask] *)

Lemma RunTask_visited name st :
  name ∈ runTasks st → RunTask name st = (Some (cyclicError name), st).
Proof. intros Hin. rewrite RunTask_unfold. by rewrite decide_True. Qed.

Lemma RunTask_marks name st r st' :
  RunTask name st = (r, st') → name ∈ runTasks st'.
Proof.
  intros Hrun. destruct (decide (name ∈ runTasks st)) as [Hin|Hin].
  - rewrite RunTask_visited in Hrun by done. by simplify_eq.
  - rewrite RunTask_unfold, decide_False in Hrun by done. cbn zeta in Hrun.
    assert (grows (markRun name st) st') as Hg%grows_subseteq.
    { destruct (Tasks !! name) as [t|]; [|simplify_eq; apply grows_refl].
      destruct (isTaskUpToDate t _);
        [simplify_eq; apply log_Printf_grows|].
      destruct (handleVariables t _ _) as [vars|e];
        [|simplify_eq; apply grows_refl].
      destruct (forDeps _ _ _ _) as [[e|] s1] eqn:Hd.
      - simplify_eq. by eapply forDeps_grows.
      - eapply grows_trans; [by eapply forDeps_grows|by eapply runCmds_grows]. }
    cbn in Hg. set_solver.
Qed.

Lemma forDeps_app vars ds1 ds2 st :
  forDeps RunTask vars (ds1 ++ ds2) st =
    match forDeps RunTask vars ds1 st with
    | (Some err, st') => (Some err, st')
    | (None, st') => forDeps RunTask vars ds2 st'
    end.
Proof.
  revert st. induction ds1 as [|d ds1 IH]; intros st; cbn; [done|].
  by destruct (RunTask _ st) as [[e|] s1].
Qed.

Lemma runCmds_app name t cs1 cs2 st :
  runCmds name t (cs1 ++ cs2) st =
    match runCmds name t cs1 st with
    | (Some err, st') => (Some err, st')
    | (None, st') => runCmds name t cs2 st'
    end.
Proof.
  revert st. induction cs1 as [|c cs1 IH]; intros st; cbn; [done|].
  destruct (handleVariables t _ _) as [vars|e]; [|done].
  destruct (runCommand _ _ st) as [[out [e|]] s1]; [done|]. apply IH.
Qed.

(** A task that is not skipped: the dependencies, then the commands. *)
Lemma RunTask_stale name st t vars :
  name ∉ runTasks st → Tasks !! name = Some t →
  isTaskUpToDate t (files st) = false →
  handleVariables t (environ st) (files st) = inl vars →
  RunTask name st =
    match forDeps RunTask vars (Deps t) (markRun name st) with
    | (Some err, st') => (Some err, st')
    | (None, st') => runCmds name t (Cmds t) st'
    end.
Proof.
  intros Hin Ht Hup Hv. rewrite RunTask_unfold, decide_False by done.
  cbn. by rewrite Ht, Hup, Hv.
Qed.

Lemma RunTask_dep_fails name st t vars pre d post st1 err st2 :
  name ∉ runTasks st → Tasks !! name = Some t →
  isTaskUpToDate t (files st) = false →
  handleVariables t (environ st) (files st) = inl vars →
  Deps t = (pre ++ d :: post)%list →
  forDeps RunTask vars pre (markRun name st) = (None, st1) →
  RunTask (ReplaceVariables d vars (environ st1)) st1 = (Some err, st2) →
  RunTask name st = (Some err, st2).
Proof.
  intros Hin Ht Hup Hv Hds Hpre Hd.
  rewrite (RunTask_stale name st t vars) by done.
  rewrite Hds, forDeps_app, Hpre. cbn. by rewrite Hd.
Qed.

Lemma grows_trace st st' :
  grows st st' → ∃ evs, trace st' = (trace st ++ evs)%list.
Proof. intros (evs & Ht & _). by exists evs. Qed.

(** A call that succeeds has marked its name. *)
Lemma RunTask_success_visits name st st' :
  RunTask name st = (None, st') →
  ∃ evs, trace st' = (trace st ++ EvVisit name :: evs)%list.
Proof.
  intros Hrun. destruct (decide (name ∈ runTasks st)) as [Hin|Hin].
  { by rewrite RunTask_visited in Hrun. }
  rewrite RunTask_unfold, decide_False in Hrun by done. cbn zeta in Hrun.
  assert (grows (markRun name st) st') as [evs Hevs]%grows_trace.
  { destruct (Tasks !! name) as [t|]; [|done].
    destruct (isTaskUpToDate t _);
      [simplify_eq; apply log_Printf_grows|].
    destruct (handleVariables t _ _) as [vars|e]; [|done].
    destruct (forDeps _ _ _ _) as [[e|] s1] eqn:Hd; [done|].
    eapply grows_trans; [by eapply forDeps_grows|by eapply runCmds_grows]. }
  exists evs. rewrite Hevs. cbn. by rewrite <- app_assoc.
Qed.

(** When the loop over the dependencies succeeds, every dependency has
    been marked under a name it was substituted to. *)
Lemma forDeps_success_visits vars ds st st' :
  forDeps RunTask vars ds st = (None, st') →
  ∃ evs, trace st' = (trace st ++ evs)%list
       ∧ ∀ d, d ∈ ds → ∃ env, ReplaceVariables d vars env ∈ visits evs.
Proof.
  revert st. induction ds as [|d ds IH]; intros st Hds; cbn in Hds.
  - simplify_eq. exists []. rewrite app_nil_r. split; [done|].
    intros d Hd. inversion Hd.
  - destruct (RunTask _ st) as [[e|] s1] eqn:Hd; [done|].
    apply RunTask_success_visits in Hd as [evs1 Hevs1].
    apply IH in Hds as (evs2 & Hevs2 & Hall).
    exists ((EvVisit (ReplaceVariables d vars (environ st)) :: evs1) ++ evs2)%list.
    split; [by rewrite Hevs2, Hevs1, app_assoc|].
    intros d' [->|Hd']%elem_of_cons.
    + exists (environ st). rewrite visits_app. cbn. set_solver.
    + destruct (Hall d' Hd') as [env Henv]. exists env.
      rewrite visits_app. set_solver.
Qed.

(** ** The claims about single steps *)

(** C2. A name that is already marked in [runTasks] makes [RunTask] return
    the cyclic-dependency error at once, with the state untouched: the
    registry is not consulted and nothing runs.  In particular, when the
    first dependency of [A] resolves to [B] and the first dependency of
    [B] resolves to [A] (neither task being up to date), [RunTask A]
    returns a cyclic-dependency error, the events of the call start no
    command, and the environment and the files are as before; when
    neither name was marked, the error names [A]. *)
Theorem C2_visited_name_is_cyclic_error :
  (∀ name st,
     name ∈ runTasks st → RunTask name st = (Some (cyclicError name), st))
  ∧ (∀ A B tA tB dA restA dB restB varsA varsB st,
       Tasks !! A = Some tA → Tasks !! B = Some tB →
       Deps tA = dA :: restA → Deps tB = dB :: restB →
       isTaskUpToDate tA (files st) = false →
       isTaskUpToDate tB (files st) = false →
       handleVariables tA (environ st) (files st) = inl varsA →
       handleVariables tB (environ st) (files st) = inl varsB →
       ReplaceVariables dA varsA (environ st) = B →
       ReplaceVariables dB varsB (environ st) = A →
       ∃ culprit st' evs,
         RunTask A st = (Some (cyclicError culprit), st')
         ∧ trace st' = (trace st ++ evs)%list ∧ execs evs = []
         ∧ environ st' = environ st ∧ files st' = files st
         ∧ (A ∉ runTasks st → B ∉ runTasks st → culprit = A)).
Proof.
  split; [apply RunTask_visited|].
  intros A B tA tB dA restA dB restB varsA varsB st
    HtA HtB HdA HdB HupA HupB HvA HvB HrA HrB.
  destruct (decide (A ∈ runTasks st)) as [HinA|HinA].
  { exists A, st, []. rewrite RunTask_visited, app_nil_r by done.
    repeat split; done. }
  destruct (decide (B ∈ runTasks (markRun A st))) as [HinB|HinB].
  { exists B, (markRun A st), [EvVisit A]. repeat split; try done.
    - eapply (RunTask_dep_fails A st tA varsA [] dA restA); try done.
      cbn. rewrite HrA. by apply RunTask_visited.
    - intros _ HB. cbn in HinB. set_solver. }
  exists A, (markRun B (markRun A st)), [EvVisit A; EvVisit B].
  repeat split; try done.
  - eapply (RunTask_dep_fails A st tA varsA [] dA restA); try done.
    cbn. rewrite HrA.
    eapply (RunTask_dep_fails B _ tB varsB [] dB restB); try done.
    cbn. rewrite HrB. apply RunTask_visited. cbn. set_solver.
  - cbn. by rewrite <- app_assoc.
Qed.

(** C4. A task that is up to date, when [RunTask] reaches it (its name
    not marked before): the call marks the name, logs the message and
    returns success; the state afterwards differs from the state before
    by that mark and that log line only, whatever [handleVariables], the
    dependencies and the commands would have done. *)
Theorem C4_up_to_date_is_skipped name st t :
  name ∉ runTasks st → Tasks !! name = Some t →
  isTaskUpToDate t (files st) = true →
  RunTask name st = (None, log_Printf (upToDateMsg name) (markRun name st))
  ∧ trace (log_Printf (upToDateMsg name) (markRun name st))
    = (trace st ++ [EvVisit name; EvLog (upToDateMsg name)])%list
  ∧ environ (log_Printf (upToDateMsg name) (markRun name st)) = environ st
  ∧ files (log_Printf (upToDateMsg name) (markRun name st)) = files st.
Proof.
  intros Hin Ht Hup. rewrite RunTask_unfold, decide_False by done.
  cbn. rewrite Ht, Hup. repeat split. by rewrite <- app_assoc.
Qed.

(** C5. The dependencies run in declared order, each under its
    substituted name, through a recursive [RunTask]: when the
    dependencies [pre] before [d] have succeeded in turn and the call for
    [d] fails with [err], [RunTask] returns that very [err], not wrapped,
    in the state the failed call left.  The events of the whole call are
    the mark of the task, the events of [pre], in which each of them was
    marked, and the events of the call for [d], and nothing after: no
    dependency after [d] and no command of the task has run. *)
Theorem C5_first_failing_dependency_aborts
    name st t vars pre d post st1 err st2 :
  name ∉ runTasks st → Tasks !! name = Some t →
  isTaskUpToDate t (files st) = false →
  handleVariables t (environ st) (files st) = inl vars →
  Deps t = (pre ++ d :: post)%list →
  forDeps RunTask vars pre (markRun name st) = (None, st1) →
  RunTask (ReplaceVariables d vars (environ st1)) st1 = (Some err, st2) →
  RunTask name st = (Some err, st2)
  ∧ ∃ evsPre evsD,
      trace st1 = (trace st ++ EvVisit name :: evsPre)%list
      ∧ trace st2 = (trace st1 ++ evsD)%list
      ∧ ∀ d', d' ∈ pre →
              ∃ env, ReplaceVariables d' vars env ∈ visits evsPre.
Proof.
  intros Hin Ht Hup Hv Hds Hpre Hd. split.
  - by eapply RunTask_dep_fails.
  - destruct (forDeps_success_visits _ _ _ _ Hpre) as (evsPre & Hevs & Hall).
    destruct (grows_trace _ _ (RunTask_grows _ _ _ _ Hd)) as [evsD HevsD].
    exists evsPre, evsD. repeat split; try done.
    rewrite Hevs. cbn. by rewrite <- app_assoc.
Qed.

(** C6. When the command [c] of a task fails with [cause], after the
    dependencies and the commands [pre] before it have succeeded,
    [RunTask] returns [taskRunError name cause], in the state the failed
    command left: the last event is the start of that command, and no
    command after [c] has run. *)
Theorem C6_failing_command_is_wrapped
    name st t vars0 pre c post st1 st2 vars out cause st3 :
  name ∉ runTasks st → Tasks !! name = Some t →
  isTaskUpToDate t (files st) = false →
  handleVariables t (environ st) (files st) = inl vars0 →
  forDeps RunTask vars0 (Deps t) (markRun name st) = (None, st1) →
  Cmds t = (pre ++ c :: post)%list →
  runCmds name t pre st1 = (None, st2) →
  handleVariables t (environ st2) (files st2) = inl vars →
  runCommand (ReplaceVariables c vars (environ st2))
             (ReplaceVariables (Dir t) vars (environ st2)) st2
    = (out, Some cause, st3) →
  RunTask name st = (Some (taskRunError name cause), st3)
  ∧ trace st3 =
      (trace st2 ++
       [EvExec (shellCommand (ReplaceVariables c vars (environ st2))
                  (ReplaceVariables (Dir t) vars (environ st2)))])%list.
Proof.
  intros Hin Ht Hup Hv0 Hds Hcs Hpre Hv Hc. split.
  - rewrite (RunTask_stale name st t vars0) by done.
    rewrite Hds, Hcs, runCmds_app, Hpre. cbn. by rewrite Hv, Hc.
  - unfold runCommand in Hc.
    destruct (cmd_Output _ _ _) as [[b|e] fs'] in Hc; by simplify_eq.
Qed.

(** C7. [runTasks] only grows: a call of [RunTask] leaves every mark in
    place and adds the mark of its own name; so a name that is marked
    stays marked through any further calls, and [RunTask] on it returns
    the cyclic-dependency error; in [Run], a second argument that an
    earlier argument has marked ends the run with that error. *)
Theorem C7_runTasks_only_grows :
  (∀ name st r st',
     RunTask name st = (r, st') →
     runTasks st ⊆ runTasks st' ∧ name ∈ runTasks st')
  ∧ (∀ name st st',
       name ∈ runTasks st → later_in_run st st' →
       RunTask name st' = (Some (cyclicError name), st'))
  ∧ (∀ a b rest st st1,
       RunTask a st = (None, st1) → b ∈ runTasks st1 →
       Run (a :: b :: rest) st = (Some (cyclicError b), st1)).
Proof.
  split; [|split].
  - intros name st r st' Hrun. split.
    + by eapply grows_subseteq, RunTask_grows.
    + by eapply RunTask_marks.
  - intros name st st' Hin Hlater. apply RunTask_visited.
    apply later_in_run_grows, grows_subseteq in Hlater. set_solver.
  - intros a b rest st st1 Ha Hb. unfold Run. cbn. rewrite Ha.
    by rewrite RunTask_visited.
Qed.

(** C10. A name without a definition is marked before the lookup: the
    first [RunTask] on it returns the not-found error and leaves the name
    marked, and every later [RunTask] on it in the same run, after any
    calls in between, returns the cyclic-dependency error. *)
Theorem C10_missing_name_then_cyclic name st :
  Tasks !! name = None → name ∉ runTasks st →
  RunTask name st = (Some (taskNotFoundError name), markRun name st)
  ∧ ∀ st', later_in_run (markRun name st) st' →
           RunTask name st' = (Some (cyclicError name), st').
Proof.
  intros Ht Hin. split.
  - rewrite RunTask_unfold, decide_False by done. cbn. by rewrite Ht.
  - intros st' Hlater. apply RunTask_visited.
    apply later_in_run_grows, grows_subseteq in Hlater. cbn in Hlater.
    set_solver.
Qed.

(** ** A whole run *)

(** When the loop over the commands succeeds, the commands started are
    the commands of the task, one for one and in their order, each
    substituted; no name is marked. *)
Lemma runCmds_success_execs name t cs st st' :
  runCmds name t cs st = (None, st') →
  ∃ evs, trace st' = (trace st ++ evs)%list ∧ visits evs = []
       ∧ Forall2 (λ c cmd, ∃ vars env,
                    cmd = shellCommand (ReplaceVariables c vars env)
                            (ReplaceVariables (Dir t) vars env))
                 cs (execs evs).
Proof.
  revert st. induction cs as [|c cs IH]; intros st Hrun; cbn in Hrun.
  - simplify_eq. exists []. rewrite app_nil_r. repeat split; constructor.
  - destruct (handleVariables t _ _) as [vars|e] eqn:Hv; [|done].
    destruct (runCommand _ _ st) as [[out [e|]] s1] eqn:Hc; [done|].
    apply IH in Hrun as (evs & Hevs & Hvis & Hall).
    set (cmd := shellCommand (ReplaceVariables c vars (environ st))
                  (ReplaceVariables (Dir t) vars (environ st))) in *.
    assert (trace s1 = (trace st ++ [EvExec cmd])%list) as Hs1.
    { unfold runCommand in Hc. fold cmd in Hc.
      destruct (cmd_Output _ _ _) as [[b|e] fs'] in Hc; by simplify_eq. }
    destruct (negb (String.eqb (Set_ t) "")); cbn in Hevs;
      rewrite Hs1 in Hevs.
    + exists (EvExec cmd :: EvPrint (out +:+ String (ascii_of_nat 10) EmptyString)
               :: EvSetenv (Set_ t) out :: evs).
      split; [|split].
      * rewrite Hevs. by rewrite <- !app_assoc.
      * done.
      * cbn. constructor; [by exists vars, (environ st)|done].
    + exists (EvExec cmd :: EvPrint (out +:+ String (ascii_of_nat 10) EmptyString)
               :: evs).
      split; [|split].
      * rewrite Hevs. by rewrite <- !app_assoc.
      * done.
      * cbn. constructor; [by exists vars, (environ st)|done].
Qed.

(** C1, as the code has it.  (1) Over a call of [RunTask], and so over
    a whole top-level invocation, no name is marked twice, and the names
    marked are names that were not marked before.  (2) A task that runs
    to success without being skipped has marked each of its dependencies
    (under a substituted name) while its dependencies ran, and has then
    started exactly its commands, one for one in declared order.  (3) A
    dependency that is already marked when its turn comes, as is one
    that a second branch of the graph reaches, ends the run with the
    cyclic-dependency error for that dependency. *)
Theorem C1_each_name_marked_once_commands_in_order :
  (∀ name st r st',
     RunTask name st = (r, st') →
     ∃ evs, trace st' = (trace st ++ evs)%list
          ∧ NoDup (visits evs)
          ∧ (∀ n, n ∈ visits evs → n ∉ runTasks st)
          ∧ runTasks st' = runTasks st ∪ list_to_set (visits evs))
  ∧ (∀ name st t vars st',
       name ∉ runTasks st → Tasks !! name = Some t →
       isTaskUpToDate t (files st) = false →
       handleVariables t (environ st) (files st) = inl vars →
       RunTask name st = (None, st') →
       ∃ st1 evsD evsC,
         forDeps RunTask vars (Deps t) (markRun name st) = (None, st1)
         ∧ trace st1 = (trace st ++ EvVisit name :: evsD)%list
         ∧ trace st' = (trace st1 ++ evsC)%list
         ∧ (∀ d, d ∈ Deps t →
                 ∃ env, ReplaceVariables d vars env ∈ visits evsD)
         ∧ visits evsC = []
         ∧ Forall2 (λ c cmd, ∃ vars' env,
                      cmd = shellCommand (ReplaceVariables c vars' env)
                              (ReplaceVariables (Dir t) vars' env))
                   (Cmds t) (execs evsC))
  ∧ (∀ name st t vars pre d post st1,
       name ∉ runTasks st → Tasks !! name = Some t →
       isTaskUpToDate t (files st) = false →
       handleVariables t (environ st) (files st) = inl vars →
       Deps t = (pre ++ d :: post)%list →
       forDeps RunTask vars pre (markRun name st) = (None, st1) →
       ReplaceVariables d vars (environ st1) ∈ runTasks st1 →
       RunTask name st
       = (Some (cyclicError (ReplaceVariables d vars (environ st1))), st1)).
Proof.
  split; [|split].
  - intros name st r st' Hrun. by apply (RunTask_grows name st r st').
  - intros name st t vars st' Hin Ht Hup Hv Hrun.
    rewrite (RunTask_stale name st t vars) in Hrun by done.
    destruct (forDeps _ _ _ _) as [[e|] s1] eqn:Hd; [done|].
    exists s1.
    destruct (forDeps_success_visits _ _ _ _ Hd) as (evsD & HevsD & HallD).
    destruct (runCmds_success_execs _ _ _ _ _ Hrun) as (evsC & HevsC & Hvis & HallC).
    exists evsD, evsC. repeat split; try done.
    rewrite HevsD. cbn. by rewrite <- app_assoc.
  - intros name st t vars pre d post st1 Hin Ht Hup Hv Hds Hpre Hd.
    eapply RunTask_dep_fails; try done. by apply RunTask_visited.
Qed.

End RunnerFacts.

(** ** The resolver of the specification *)

Section ResolverFacts.

Implicit Types (s pre post name : string) (resolve : string → option string).














End ResolverFacts.

(** ** The runner over the resolver and the glob helpers of the
    specification *)

Section SpecHostFacts.

Context {FS ExtErr : Type}.
Variable glob : string → FS → list string + ExtErr.
Variable modTime : FS → string → Time.
Variable shExists : bool.
Variable shPath : string.
Variable output : Cmd → gmap string string → FS → (string + ExtErr) * FS.
Variable tasks : gmap string Task.

Local Abbreviation theHost :=
  (specHost glob modTime shExists shPath output tasks).

Implicit Types (ts : list Time) (t : Task) (fs : FS).









End SpecHostFacts.

(** ** The claims at concrete registries *)

Ltac by_running := vm_compute; reflexivity.
Ltac by_deciding :=
  match goal with
  | |- ?P => apply (bool_decide_unpack P); vm_compute; exact I
  end.

(** C1 as stated fails: the registry [diamond] has no cycle, [d] is
    reached through [b] and again through [c], and the run of [a] ends
    with the cyclic-dependency error for [d]. *)
Lemma C1_diamond_fails :
  acyclic diamond
  ∧ fst (RunTask (host := miniHost diamond) "a" (state0 ∅))
    = Some (cyclicError "d")
  ∧ visits (trace (snd (RunTask (host := miniHost diamond) "a" (state0 ∅))))
    = ["a"; "b"; "d"; "c"].
Proof.
  split; [|split; by_running].
  exists (λ n, if String.eqb n "a" then 2
               else if String.eqb n "d" then 0 else 1).
  intros a t d Ha Hd. unfold diamond in Ha.
  repeat (apply lookup_insert_Some in Ha as [[<- <-]|[_ Ha]];
          [set_unfold in Hd;
           repeat (destruct Hd as [->|Hd]; [cbn; lia|]); done|]).
  by rewrite lookup_empty in Ha.
Qed.


(** The theorems above at these registries. *)

Lemma C1_witness :
  (∃ st1 evsD evsC,
     forDeps (host := miniHost chain) (RunTask (host := miniHost chain))
       ∅ ["lib"]
       (markRun "app" (state0 ∅)) = (None, st1)
     ∧ trace st1 = ([] ++ EvVisit "app" :: evsD)%list
     ∧ trace (snd (RunTask (host := miniHost chain) "app" (state0 ∅)))
       = (trace st1 ++ evsC)%list
     ∧ (∀ d, d ∈ ["lib"] →
             ∃ env, ReplaceVariables (Host := miniHost chain) d ∅ env
                    ∈ visits evsD)
     ∧ visits evsC = []
     ∧ Forall2 (λ c cmd, ∃ vars' env,
                  cmd = shellCommand (host := miniHost chain)
                          (Substitute c vars' env) (Substitute "" vars' env))
               ["echo app"; "echo done"] (execs evsC))
  ∧ RunTask (host := miniHost diamond) "c"
      (mkState (list_to_set ["a"; "b"; "d"]) ∅ ∅ [])
    = (Some (cyclicError "d"),
       markRun "c" (mkState (list_to_set ["a"; "b"; "d"]) ∅ ∅ [])).
Proof.
  split.
  - apply (proj1 (proj2 (C1_each_name_marked_once_commands_in_order
                           (host := miniHost chain)))
             "app" (state0 ∅)
             (mkTask ["echo app"; "echo done"] ["lib"] [] [] "" ∅ "") ∅).
    + set_solver.
    + by_running.
    + by_running.
    + by_running.
    + by_running.
  - apply (proj2 (proj2 (C1_each_name_marked_once_commands_in_order
                           (host := miniHost diamond)))
             "c" (mkState (list_to_set ["a"; "b"; "d"]) ∅ ∅ [])
             (withDeps ["d"]) ∅ [] "d" []).
    + vm_compute. set_solver.
    + by_running.
    + by_running.
    + by_running.
    + by_running.
    + by_running.
    + vm_compute. set_solver.
Defined.

Lemma C2_witness :
  RunTask (host := miniHost cycleAB) "a" (mkState {["a"]} ∅ ∅ [])
  = (Some (cyclicError "a"), mkState {["a"]} ∅ ∅ [])
  ∧ ∃ culprit st' evs,
      RunTask (host := miniHost cycleAB) "a" (state0 ∅)
      = (Some (cyclicError culprit), st')
      ∧ trace st' = ([] ++ evs)%list ∧ execs evs = []
      ∧ environ st' = ∅ ∧ files st' = ∅
      ∧ ("a" ∉ (∅ : gset string) → "b" ∉ (∅ : gset string) → culprit = "a").
Proof.
  split.
  - apply (proj1 (C2_visited_name_is_cyclic_error (host := miniHost cycleAB))).
    cbn. set_solver.
  - apply (proj2 (C2_visited_name_is_cyclic_error (host := miniHost cycleAB))
             "a" "b" (withDeps ["b"]) (withDeps ["a"]) "b" [] "a" [] ∅ ∅
             (state0 ∅)); by_running.
Defined.


Lemma C4_witness :
  RunTask (host := miniHost upToDateRegistry) "build" (state0 inOut)
  = (None, mkState {["build"]} ∅ inOut
             [EvVisit "build"; EvLog (upToDateMsg "build")]).
Proof.
  destruct (C4_up_to_date_is_skipped (host := miniHost upToDateRegistry)
              "build" (state0 inOut) buildTask) as [Hrun _].
  - cbn. set_solver.
  - by_running.
  - by_running.
  - rewrite Hrun. by_running.
Defined.

Lemma C5_witness :
  ∃ st2,
    RunTask (host := miniHost failing) "all" (state0 ∅)
    = (Some (taskRunError "test" (externalError "exit status 1")), st2)
    ∧ visits (trace st2) = ["all"; "lint"; "test"].
Proof.
  edestruct (C5_first_failing_dependency_aborts (host := miniHost failing)
               "all" (state0 ∅) (withDeps ["lint"; "test"; "pack"]) ∅
               ["lint"] "test" ["pack"]) as [Hrun _].
  - cbn. set_solver.
  - by_running.
  - by_running.
  - by_running.
  - by_running.
  - by_running.
  - by_running.
  - eexists. split; [exact Hrun|by_running].
Defined.

Lemma C6_witness :
  ∃ st2 st3 : State (gmap string Time),
    (RunTask (host := miniHost failing) "test" (state0 ∅)
     = (Some (taskRunError "test" (externalError "exit status 1")), st3)
     ∧ trace st3
       = (trace st2 ++ [EvExec (mkCmd "/bin/sh" ["-c"; "false"] "")])%list)
    ∧ execs (trace st3)
      = [mkCmd "/bin/sh" ["-c"; "echo testing"] "";
         mkCmd "/bin/sh" ["-c"; "false"] ""].
Proof.
  eexists _, _. split.
  - eapply (C6_failing_command_is_wrapped (host := miniHost failing)
              "test" (state0 ∅)
              (withCmds ["echo testing"; "false"; "echo unreachable"]) ∅
              ["echo testing"] "false" ["echo unreachable"]).
    + cbn. set_solver.
    + by_running.
    + by_running.
    + by_running.
    + by_running.
    + by_running.
    + by_running.
    + by_running.
    + by_running.
  - by_running.
Defined.

Lemma C7_witness :
  ((∅ : gset string)
     ⊆ runTasks (snd (RunTask (host := miniHost chain) "app" (state0 ∅)))
   ∧ "app"
     ∈ runTasks (snd (RunTask (host := miniHost chain) "app" (state0 ∅))))
  ∧ RunTask (host := miniHost chain) "lib"
      (snd (RunTask (host := miniHost chain) "nothing"
         (snd (RunTask (host := miniHost chain) "app" (state0 ∅)))))
    = (Some (cyclicError "lib"),
       snd (RunTask (host := miniHost chain) "nothing"
         (snd (RunTask (host := miniHost chain) "app" (state0 ∅)))))
  ∧ Run (host := miniHost chain) ["app"; "lib"] (state0 ∅)
    = (Some (cyclicError "lib"),
       snd (RunTask (host := miniHost chain) "app" (state0 ∅))).
Proof.
  pose proof (C7_runTasks_only_grows (host := miniHost chain))
    as (Hgrow & Hlater & Hsecond).
  split; [|split].
  - apply (Hgrow "app" (state0 ∅) None). by_running.
  - apply (Hlater "lib"
             (snd (RunTask (host := miniHost chain) "app" (state0 ∅)))).
    + by_deciding.
    + eapply (later_call _ _ "nothing" (Some (taskNotFoundError "nothing")));
        [apply later_now|by_running].
  - apply Hsecond; [by_running|by_deciding].
Defined.



Lemma C10_witness :
  RunTask (host := miniHost diamond) "nope" (state0 ∅)
  = (Some (taskNotFoundError "nope"), markRun "nope" (state0 ∅))
  ∧ RunTask (host := miniHost diamond) "nope"
      (snd (RunTask (host := miniHost diamond) "d"
              (markRun "nope" (state0 ∅))))
    = (Some (cyclicError "nope"),
       snd (RunTask (host := miniHost diamond) "d"
              (markRun "nope" (state0 ∅)))).
Proof.
  destruct (C10_missing_name_then_cyclic (host := miniHost diamond)
              "nope" (state0 ∅)) as [Hfirst Hlater].
  - by_running.
  - cbn. set_solver.
  - split; [exact Hfirst|]. apply Hlater.
    eapply (later_call _ _ "d" None); [apply later_now|by_running].
Defined.

(** ** An induction rule for [RunTask] *)

Section RunTaskRule.

Context {FS ExtErr : Type} {host : Host FS ExtErr}.

Implicit Types (st : State FS) (name : string) (t : Task)
  (evs : list Event) (r : option (error ExtErr)).

Variable Q : string → State FS → option (error ExtErr) → State FS → Prop.

Hypothesis Q_visited : ∀ name st,
  name ∈ runTasks st → Q name st (Some (cyclicError name)) st.
Hypothesis Q_not_found : ∀ name st,
  name ∉ runTasks st → Tasks !! name = None →
  Q name st (Some (taskNotFoundError name)) (markRun name st).
Hypothesis Q_up_to_date : ∀ name st t,
  name ∉ runTasks st → Tasks !! name = Some t →
  isTaskUpToDate t (files st) = true →
  Q name st None (log_Printf (upToDateMsg name) (markRun name st)).
Hypothesis Q_variables : ∀ name st t err,
  name ∉ runTasks st → Tasks !! name = Some t →
  isTaskUpToDate t (files st) = false →
  handleVariables t (environ st) (files st) = inr err →
  Q name st (Some (taskRunError name err)) (markRun name st).
Hypothesis Q_dependency : ∀ name st t vars err st1,
  name ∉ runTasks st → Tasks !! name = Some t →
  isTaskUpToDate t (files st) = false →
  handleVariables t (environ st) (files st) = inl vars →
  loopOver Q vars (Deps t) (markRun name st) (Some err) st1 →
  Q name st (Some err) st1.
Hypothesis Q_commands : ∀ name st t vars st1 r st',
  name ∉ runTasks st → Tasks !! name = Some t →
  isTaskUpToDate t (files st) = false →
  handleVariables t (environ st) (files st) = inl vars →
  loopOver Q vars (Deps t) (markRun name st) None st1 →
  runCmds name t (Cmds t) st1 = (r, st') →
  Q name st r st'.

Lemma runDeps_loopOver fuel vars ds st r st' :
  (∀ n s r' s', RunTask_fuel fuel n s = Some (r', s') →
                RunTask n s = (r', s') ∧ Q n s r' s') →
  runDeps (RunTask_fuel fuel) vars ds st = Some (r, st') →
  loopOver Q vars ds st r st'.
Proof.
  intros Hcall. revert st. induction ds as [|d ds IH]; intros st Hds;
    cbn in Hds.
  - simplify_eq. constructor.
  - destruct (RunTask_fuel _ _ st) as [[[e|] s1]|] eqn:Hd; [| |done].
    + simplify_eq. destruct (Hcall _ _ _ _ Hd). by apply loop_fail.
    + destruct (Hcall _ _ _ _ Hd). eapply loop_next; eauto.
Qed.

Lemma RunTask_fuel_rule fuel name st r st' :
  RunTask_fuel fuel name st = Some (r, st') →
  RunTask name st = (r, st') ∧ Q name st r st'.
Proof.
  revert name st r st'.
  induction fuel as [|fuel IH]; intros name st r st' Hrun; [done|].
  assert (RunTask name st = (r, st')) as Heq.
  { destruct (decide (pending st < S fuel)%nat) as [Hlt|Hge].
    - rewrite RunTask_fuel_enough in Hrun by done. by simplify_eq.
    - pose proof (pending_le_size st).
      eapply (RunTask_fuel_mono _ (S (size Tasks))) in Hrun; [|lia].
      unfold RunTask. by rewrite Hrun. }
  split; [done|]. clear Heq.
  cbn in Hrun. case_decide as Hin; [simplify_eq; by apply Q_visited|].
  destruct (Tasks !! name) as [t|] eqn:Ht;
    [|simplify_eq; by apply Q_not_found].
  destruct (isTaskUpToDate t _) eqn:Hup;
    [simplify_eq; by eapply Q_up_to_date|].
  destruct (handleVariables t _ _) as [vars|e] eqn:Hv;
    [|simplify_eq; by eapply Q_variables].
  destruct (runDeps _ vars (Deps t) _) as [[[e|] s1]|] eqn:Hd; [| |done];
    apply (runDeps_loopOver fuel) in Hd; try (intros; by apply IH).
  - simplify_eq. by eapply Q_dependency.
  - inversion Hrun as [Hc]. by eapply Q_commands.
Qed.

(** [Q] holds of every call of [RunTask] as soon as it holds of each way
    the body returns, given that it holds of the calls for the
    dependencies. *)
Lemma RunTask_rule name st r st' :
  RunTask name st = (r, st') → Q name st r st'.
Proof.
  intros Hrun. eapply (RunTask_fuel_rule (S (size Tasks))).
  rewrite RunTask_fuel_enough; [by rewrite Hrun|].
  pose proof (pending_le_size st). lia.
Qed.

End RunTaskRule.

(** ** More on [RunTask] *)

Section RunnerMore.

Context {FS ExtErr : Type} {host : Host FS ExtErr}.

Implicit Types (st : State FS) (name : string) (t : Task)
  (evs : list Event) (r : option (error ExtErr)).


Lemma RunTask_success_fresh name st st' :
  RunTask name st = (None, st') →
  (name ∉ runTasks st) ∧ is_Some (Tasks !! name).
Proof.
  intros Hrun. rewrite RunTask_unfold in Hrun.
  case_decide as Hin; [done|]. split; [done|].
  cbn zeta in Hrun. by destruct (Tasks !! name).
Qed.

Lemma runCmds_quiet name t cs st r st' :
  runCmds name t cs st = (r, st') →
  ∃ evs, trace st' = (trace st ++ evs)%list ∧ visits evs = [].
Proof.
  revert st. induction cs as [|c cs IH]; intros st Hrun; cbn in Hrun.
  - simplify_eq. exists []. by rewrite app_nil_r.
  - destruct (handleVariables t _ _) as [vars|e];
      [|simplify_eq; exists []; by rewrite app_nil_r].
    destruct (runCommand _ _ st) as [[out err] s1] eqn:Hc.
    assert (∃ cmd, trace s1 = (trace st ++ [EvExec cmd])%list) as [cmd Hs1].
    { unfold runCommand in Hc.
      destruct (cmd_Output _ _ _) as [[b|e] fs'] in Hc; simplify_eq;
        by eexists. }
    destruct err as [e|]; [simplify_eq; by exists [EvExec cmd]|].
    apply IH in Hrun as (evs & Hevs & Hvis).
    destruct (negb (String.eqb (Set_ t) "")); cbn in Hevs;
      rewrite Hs1, <- !app_assoc in Hevs; eexists; (split; [exact Hevs|done]).
Qed.

(** X2. A call of [RunTask] that succeeds was made on a name that was not
    marked and that the registry defines, and every name it has marked,
    that of each dependency it went through included, is defined in the
    registry: a run that meets an undefined name does not succeed. *)
Theorem X2_success_only_over_defined_tasks name st st' :
  RunTask name st = (None, st') →
  (name ∉ runTasks st) ∧ is_Some (Tasks !! name)
  ∧ ∃ evs, trace st' = (trace st ++ evs)%list
         ∧ name ∈ visits evs
         ∧ ∀ n, n ∈ visits evs → is_Some (Tasks !! n).
Proof.
  intros Hrun. destruct (RunTask_success_fresh _ _ _ Hrun) as [Hin Hdef].
  split; [done|]. split; [done|].
  set (Q := λ name st r st',
    r = None →
    ∃ evs, trace st' = (trace st ++ evs)%list ∧ name ∈ visits evs
         ∧ ∀ n, n ∈ visits evs → is_Some (Tasks !! n)).
  assert (∀ vars ds s r s1,
            loopOver Q vars ds s r s1 → r = None →
            ∃ evs, trace s1 = (trace s ++ evs)%list
                 ∧ ∀ n, n ∈ visits evs → is_Some (Tasks !! n)) as Hloop.
  { intros vars ds s r s1 Hl.
    induction Hl as [s|d ds s e s1 _ _|d ds s s1 r s2 _ Hq _ IH]; intros Hr.
    - exists []. rewrite app_nil_r. split; [done|]. intros n Hn.
      inversion Hn.
    - done.
    - subst r. destruct (Hq eq_refl) as (e1 & He1 & _ & Hd1).
      destruct (IH eq_refl) as (e2 & He2 & Hd2).
      exists (e1 ++ e2)%list. split; [by rewrite He2, He1, app_assoc|].
      intros n. rewrite visits_app, elem_of_app. intros [?|?]; auto. }
  apply (RunTask_rule Q) in Hrun; [by apply Hrun| | | | | |]; unfold Q;
    clear Hrun Hin Hdef name st st'.
  - done.
  - done.
  - intros name st t Hin Ht _ _.
    exists [EvVisit name; EvLog (upToDateMsg name)]. cbn.
    split; [by rewrite <- app_assoc|]. split; [set_solver|].
    intros n ->%list_elem_of_singleton. by rewrite Ht.
  - done.
  - done.
  - intros name st t vars st1 r st' Hin Ht _ _ Hl Hc ->.
    destruct (Hloop _ _ _ _ _ Hl eq_refl) as (e1 & He1 & Hd1).
    destruct (runCmds_quiet _ _ _ _ _ _ Hc) as (e2 & He2 & Hq2).
    exists (EvVisit name :: e1 ++ e2)%list. split; [|split].
    + rewrite He2, He1. cbn. by rewrite <- !app_assoc.
    + cbn. set_solver.
    + intros n. cbn. rewrite visits_app, Hq2, app_nil_r.
      intros [->|?]%elem_of_cons; [by rewrite Ht|auto].
Qed.

Lemma runCmds_error name t cs st err st' :
  runCmds name t cs st = (Some err, st') → ∃ c, err = taskRunError name c.
Proof.
  revert st. induction cs as [|c cs IH]; intros st Hrun; cbn in Hrun;
    [done|].
  destruct (handleVariables t _ _) as [vars|e];
    [|simplify_eq; by eexists].
  destruct (runCommand _ _ st) as [[out [e|]] s1];
    [simplify_eq; by eexists|by eapply IH].
Qed.

(** X3. Every error that [RunTask] returns carries a task name, and that
    task is marked when the call returns: the error is either
    [taskNotFoundError] for a name the registry does not define, or
    [taskRunError]; a bare error of a command or of the libraries never
    comes out of [RunTask]. *)
Theorem X3_errors_name_a_marked_task name st err st' :
  RunTask name st = (Some err, st') →
  ∃ n, n ∈ runTasks st'
     ∧ ((err = taskNotFoundError n ∧ Tasks !! n = None)
        ∨ ∃ cause, err = taskRunError n cause).
Proof.
  intros Hrun.
  set (Q := λ (name : string) (st : State FS) r (st' : State FS),
    ∀ e, r = Some e →
    ∃ n, n ∈ runTasks st'
       ∧ ((e = taskNotFoundError n ∧ Tasks !! n = None)
          ∨ ∃ cause, e = taskRunError n cause)).
  assert (∀ vars ds s r s1 e0,
            loopOver Q vars ds s r s1 → r = Some e0 →
            ∃ n, n ∈ runTasks s1
               ∧ ((e0 = taskNotFoundError n ∧ Tasks !! n = None)
                  ∨ ∃ cause, e0 = taskRunError n cause)) as Hloop.
  { intros vars ds s r s1 e0 Hl.
    induction Hl as [s|d ds s e s1 _ Hq|d ds s s1 r s2 _ _ _ IH]; intros Hr.
    - done.
    - by apply Hq.
    - by apply IH. }
  apply (RunTask_rule Q) in Hrun; [by apply Hrun| | | | | |]; unfold Q;
    clear Hrun name st err st'.
  - intros name st Hin err [= <-]. exists name. split; [done|].
    right. by eexists.
  - intros name st Hin Ht err [= <-]. exists name. cbn.
    split; [set_solver|]. by left.
  - done.
  - intros name st t e Hin Ht _ _ err [= <-]. exists name. cbn.
    split; [set_solver|]. right. by eexists.
  - intros name st t vars e st1 _ _ _ _ Hl err [= <-].
    by eapply Hloop.
  - intros name st t vars st1 r st' Hin Ht Hup Hv Hl Hc err ->.
    destruct (runCmds_error _ _ _ _ _ _ Hc) as [c ->].
    exists name. split; [|right; by eexists].
    assert (grows (markRun name st) st') as Hg%grows_subseteq.
    { eapply grows_trans; [|by eapply runCmds_grows].
      clear Hc. induction Hl as [s|d ds s e s1 Hd _|d ds s s1 r s2 Hd _ _ IH].
      - apply grows_refl.
      - by eapply RunTask_grows.
      - eapply grows_trans; [by eapply RunTask_grows|done]. }
    cbn in Hg. set_solver.
Qed.

Lemma runCmds_environ name t cs st r st' k :
  runCmds name t cs st = (r, st') →
  (Set_ t ≠ "" → Set_ t ≠ k) →
  environ st' !! k = environ st !! k.
Proof.
  intros Hrun Hk. revert st Hrun.
  induction cs as [|c cs IH]; intros st Hrun; cbn in Hrun;
    [by simplify_eq|].
  destruct (handleVariables t _ _) as [vars|e]; [|by simplify_eq].
  destruct (runCommand _ _ st) as [[out err] s1] eqn:Hc.
  apply runCommand_environ in Hc.
  destruct err as [e|]; [simplify_eq; by rewrite Hc|].
  apply IH in Hrun. rewrite Hrun, <- Hc.
  destruct (String.eqb_spec (Set_ t) "") as [Heq|Hne]; cbn; [done|].
  unfold os_Setenv. destruct (setenvOK _ _); [|done].
  apply lookup_insert_ne. by apply Hk.
Qed.

(** X4. [RunTask] writes the environment only under the names that tasks
    of the registry give as [Set]: the value of every other variable,
    and of the variable of empty name, is after the call what it was
    before; when no task has a [Set], the environment is unchanged. *)
Theorem X4_environment_written_only_at_Set_names name st r st' :
  RunTask name st = (r, st') →
  (∀ k, (∀ n t, Tasks !! n = Some t → Set_ t ≠ "" → Set_ t ≠ k) →
        environ st' !! k = environ st !! k)
  ∧ ((∀ n t, Tasks !! n = Some t → Set_ t = "") →
     environ st' = environ st).
Proof.
  intros Hrun.
  assert (∀ k, (∀ n t, Tasks !! n = Some t → Set_ t ≠ "" → Set_ t ≠ k) →
               environ st' !! k = environ st !! k) as Hframe.
  { intros k Hk.
    set (Q := λ (name : string) (st : State FS) (r : option (error ExtErr))
               (st' : State FS), environ st' !! k = environ st !! k).
    assert (∀ vars ds s r1 s1,
              loopOver Q vars ds s r1 s1 →
              environ s1 !! k = environ s !! k) as Hloop.
    { intros vars ds s r1 s1 Hl.
      induction Hl as [s|d ds s e s1 _ Hq|d ds s s1 r1 s2 _ Hq _ IH];
        [done|done|]. unfold Q in Hq. by rewrite IH, Hq. }
    apply (RunTask_rule Q) in Hrun; [done| | | | | |]; unfold Q;
      try done.
    - intros ? ? t vars e s1 _ _ _ _ Hl. by apply Hloop in Hl.
    - intros n s t vars s1 r1 s2 _ Ht _ _ Hl Hc. apply Hloop in Hl.
      rewrite (runCmds_environ _ _ _ _ _ _ k Hc); [done|].
      by apply (Hk n). }
  split; [done|]. intros Hnone. apply map_eq. intros k. apply Hframe.
  intros n t Ht Hne. by rewrite (Hnone n t Ht) in Hne.
Qed.

Lemma runCmds_no_exec name t cs st r st' :
  runCmds name t cs st = (r, st') →
  ∃ evs, trace st' = (trace st ++ evs)%list
       ∧ (execs evs = [] → files st' = files st ∧ environ st' = environ st).
Proof.
  destruct cs as [|c cs]; intros Hrun; cbn in Hrun.
  { simplify_eq. exists []. by rewrite app_nil_r. }
  destruct (handleVariables t _ _) as [vars|e];
    [|simplify_eq; exists []; by rewrite app_nil_r].
  destruct (runCommand _ _ st) as [[out err] s1] eqn:Hc.
  assert (∃ cmd, trace s1 = (trace st ++ [EvExec cmd])%list) as [cmd Hs1].
  { unfold runCommand in Hc.
    destruct (cmd_Output _ _ _) as [[b|e] fs'] in Hc; simplify_eq;
      by eexists. }
  assert (∃ evs, trace st' = (trace s1 ++ evs)%list) as [evs Hevs].
  { destruct err as [e|]; [simplify_eq; exists []; by rewrite app_nil_r|].
    apply runCmds_grows, grows_trace in Hrun as [evs Hevs].
    destruct (negb _); cbn in Hevs; rewrite <- !app_assoc in Hevs;
      by eexists. }
  exists (EvExec cmd :: evs). split; [|done].
  rewrite Hevs, Hs1. by rewrite <- app_assoc.
Qed.

(** X5. The file system and the environment change only through a
    command: when the events of a call of [RunTask] start no command,
    the files and the environment are after the call what they were
    before. *)
Theorem X5_without_command_nothing_changes name st r st' :
  RunTask name st = (r, st') →
  ∃ evs, trace st' = (trace st ++ evs)%list
       ∧ (execs evs = [] → files st' = files st ∧ environ st' = environ st).
Proof.
  set (Q := λ (name : string) (st : State FS) (r : option (error ExtErr))
             (st' : State FS),
    ∃ evs, trace st' = (trace st ++ evs)%list
         ∧ (execs evs = [] →
            files st' = files st ∧ environ st' = environ st)).
  assert (∀ vars ds s r1 s1, loopOver Q vars ds s r1 s1 → Q "" s r1 s1)
    as Hloop.
  { intros vars ds s r1 s1 Hl.
    induction Hl as [s|d ds s e s1 _ Hq|d ds s s1 r1 s2 _ Hq _ IH].
    - exists []. by rewrite app_nil_r.
    - done.
    - destruct Hq as (e1 & He1 & Hf1). destruct IH as (e2 & He2 & Hf2).
      exists (e1 ++ e2)%list. split; [by rewrite He2, He1, app_assoc|].
      rewrite execs_app. intros [H1 H2]%app_eq_nil.
      destruct (Hf1 H1) as [<- <-]. by apply Hf2. }
  intros Hrun. apply (RunTask_rule Q) in Hrun; [done| | | | | |];
    unfold Q; clear Hrun name st r st'.
  - intros name st _. exists []. by rewrite app_nil_r.
  - intros name st _ _. by exists [EvVisit name].
  - intros name st t _ _ _.
    exists [EvVisit name; EvLog (upToDateMsg name)]. cbn.
    by rewrite <- app_assoc.
  - intros name st t e _ _ _ _. by exists [EvVisit name].
  - intros name st t vars e s1 _ _ _ _ Hl.
    destruct (Hloop _ _ _ _ _ Hl) as (e1 & He1 & Hf1).
    exists (EvVisit name :: e1). split.
    + rewrite He1. cbn. by rewrite <- app_assoc.
    + cbn. intros H1. by apply Hf1.
  - intros name st t vars s1 r s2 _ _ _ _ Hl Hc.
    destruct (Hloop _ _ _ _ _ Hl) as (e1 & He1 & Hf1).
    destruct (runCmds_no_exec _ _ _ _ _ _ Hc) as (e2 & He2 & Hf2).
    exists (EvVisit name :: e1 ++ e2)%list. split.
    + rewrite He2, He1. cbn. by rewrite <- !app_assoc.
    + cbn. rewrite execs_app. intros [H1 H2]%app_eq_nil.
      destruct (Hf2 H2) as [-> ->]. by apply Hf1.
Qed.

Lemma prints_app evs1 evs2 :
  prints (evs1 ++ evs2) = (prints evs1 ++ prints evs2)%list.
Proof. unfold prints. apply omap_app. Qed.

Lemma setenvs_app evs1 evs2 :
  setenvs (evs1 ++ evs2) = (setenvs evs1 ++ setenvs evs2)%list.
Proof. unfold setenvs. apply omap_app. Qed.

Lemma balanced_app evs1 evs2 r :
  balanced (ExtErr := ExtErr) None evs1 → balanced r evs2 →
  balanced r (evs1 ++ evs2).
Proof.
  intros (H1 & H2 & H3 & H4) (K1 & K2 & K3 & K4). specialize (H3 eq_refl).
  unfold balanced.
  rewrite prints_app, execs_app, setenvs_app, !length_app.
  repeat split; try lia. intros Hr. specialize (K3 Hr). lia.
Qed.

Lemma runCmds_balanced name t cs st r st' :
  runCmds name t cs st = (r, st') →
  ∃ evs, trace st' = (trace st ++ evs)%list ∧ balanced r evs.
Proof.
  revert st. induction cs as [|c cs IH]; intros st Hrun; cbn in Hrun.
  { simplify_eq. exists []. rewrite app_nil_r. split; [done|].
    repeat split; cbn; lia. }
  destruct (handleVariables t _ _) as [vars|e].
  2:{ simplify_eq. exists []. rewrite app_nil_r. split; [done|].
      repeat split; cbn; try lia; done. }
  destruct (runCommand _ _ st) as [[out err] s1] eqn:Hc.
  assert (∃ cmd, trace s1 = (trace st ++ [EvExec cmd])%list) as [cmd Hs1].
  { unfold runCommand in Hc.
    destruct (cmd_Output _ _ _) as [[b|e] fs'] in Hc; simplify_eq;
      by eexists. }
  destruct err as [e|].
  { simplify_eq. exists [EvExec cmd]. split; [done|].
    repeat split; cbn; try lia; done. }
  apply IH in Hrun as (evs & Hevs & Hbal).
  destruct (negb (String.eqb (Set_ t) "")); cbn in Hevs;
    rewrite Hs1, <- !app_assoc in Hevs; cbn in Hevs;
    eexists; (split; [exact Hevs|]).
  - apply (balanced_app [_; _; _]); [|done]. repeat split; cbn; lia.
  - apply (balanced_app [_; _]); [|done]. repeat split; cbn; lia.
Qed.

(** X6. The output of every command that succeeds is printed, once and
    before anything else runs: over the events of a call of [RunTask],
    the lines printed are as many as the commands started when the call
    succeeds, and as many or one less when it fails; and no more
    variables are set than lines are printed. *)
Theorem X6_each_output_printed_once name st r st' :
  RunTask name st = (r, st') →
  ∃ evs, trace st' = (trace st ++ evs)%list
       ∧ (length (prints evs) ≤ length (execs evs))%nat
       ∧ (length (execs evs) ≤ S (length (prints evs)))%nat
       ∧ (r = None → length (execs evs) = length (prints evs))
       ∧ (length (setenvs evs) ≤ length (prints evs))%nat.
Proof.
  set (Q := λ (name : string) (st : State FS) (r : option (error ExtErr))
             (st' : State FS),
    ∃ evs, trace st' = (trace st ++ evs)%list ∧ balanced r evs).
  assert (∀ r0, balanced r0 []) as Hnil.
  { intros r0. repeat split; cbn; lia. }
  assert (∀ vars ds s r1 s1, loopOver Q vars ds s r1 s1 → Q "" s r1 s1)
    as Hloop.
  { intros vars ds s r1 s1 Hl.
    induction Hl as [s|d ds s e s1 _ Hq|d ds s s1 r1 s2 _ Hq _ IH].
    - exists []. by rewrite app_nil_r.
    - done.
    - destruct Hq as (e1 & He1 & Hb1). destruct IH as (e2 & He2 & Hb2).
      exists (e1 ++ e2)%list. split; [by rewrite He2, He1, app_assoc|].
      by apply balanced_app. }
  intros Hrun. apply (RunTask_rule Q) in Hrun; [done| | | | | |];
    unfold Q; clear Hrun name st r st'.
  - intros name st _. exists []. by rewrite app_nil_r.
  - intros name st _ _. exists [EvVisit name]. split; [done|].
    apply (Hnil (Some (taskNotFoundError name))).
  - intros name st t _ _ _.
    exists [EvVisit name; EvLog (upToDateMsg name)]. cbn.
    split; [by rewrite <- app_assoc|]. apply (Hnil None).
  - intros name st t e _ _ _ _. exists [EvVisit name]. split; [done|].
    apply (Hnil (Some (taskRunError name e))).
  - intros name st t vars e s1 _ _ _ _ Hl.
    destruct (Hloop _ _ _ _ _ Hl) as (e1 & He1 & Hb1).
    exists ([EvVisit name] ++ e1)%list. split.
    + rewrite He1. cbn. by rewrite <- app_assoc.
    + apply balanced_app; [apply (Hnil None)|done].
  - intros name st t vars s1 r s2 _ _ _ _ Hl Hc.
    destruct (Hloop _ _ _ _ _ Hl) as (e1 & He1 & Hb1).
    destruct (runCmds_balanced _ _ _ _ _ _ Hc) as (e2 & He2 & Hb2).
    exists (([EvVisit name] ++ e1) ++ e2)%list. split.
    + rewrite He2, He1. cbn. by rewrite <- !app_assoc.
    + apply balanced_app; [|done].
      apply balanced_app; [apply (Hnil None)|done].
Qed.

(** ** [Run] *)

Lemma runArgs_app args1 args2 st :
  runArgs (args1 ++ args2) st =
    match runArgs args1 st with
    | (Some err, st') => (Some err, st')
    | (None, st') => runArgs args2 st'
    end.
Proof.
  revert st. induction args1 as [|a args1 IH]; intros st; cbn; [done|].
  by destruct (RunTask a st) as [[e|] s1].
Qed.

Lemma runArgs_grows args st r st' :
  runArgs args st = (r, st') → grows st st'.
Proof.
  revert st. induction args as [|a args IH]; intros st Hrun; cbn in Hrun.
  - simplify_eq. apply grows_refl.
  - destruct (RunTask a st) as [[e|] s1] eqn:Ha.
    + simplify_eq. by eapply RunTask_grows.
    + eapply grows_trans; [by eapply RunTask_grows|by apply IH].
Qed.

Lemma runArgs_success args st st' :
  runArgs args st = (None, st') →
  NoDup args
  ∧ ∀ a, a ∈ args →
         (a ∉ runTasks st) ∧ is_Some (Tasks !! a) ∧ a ∈ runTasks st'.
Proof.
  revert st. induction args as [|a args IH]; intros st Hrun; cbn in Hrun.
  { split; [constructor|]. intros a Ha. inversion Ha. }
  destruct (RunTask a st) as [[e|] s1] eqn:Ha; [done|].
  destruct (RunTask_success_fresh _ _ _ Ha) as [Hfresh Hdef].
  pose proof (RunTask_marks _ _ _ _ Ha) as Hmark.
  pose proof (grows_subseteq _ _ (RunTask_grows _ _ _ _ Ha)) as Hsub1.
  pose proof (grows_subseteq _ _ (runArgs_grows _ _ _ _ Hrun)) as Hsub2.
  destruct (IH _ Hrun) as [Hnd Hall]. split.
  - constructor; [|done]. intros Hin. by destruct (Hall a Hin) as [? _].
  - intros b [->|Hb]%elem_of_cons.
    + repeat split; [done|done|set_solver].
    + destruct (Hall b Hb) as (Hb1 & Hb2 & Hb3).
      repeat split; [set_solver|done|done].
Qed.

(** X7. When the loop of [Run] over the arguments succeeds, there was at
    least one argument, no argument was given twice, and every argument
    names a task of the registry that was not marked before and is
    marked after: a task named twice on the command line, or named after
    it has run as a dependency of an earlier argument, makes [Run]
    fail. *)
Theorem X7_Run_succeeds_only_on_distinct_defined_tasks args st st' :
  Run args st = (None, st') →
  args ≠ [] ∧ NoDup args
  ∧ ∀ a, a ∈ args →
         (a ∉ runTasks st) ∧ is_Some (Tasks !! a) ∧ a ∈ runTasks st'.
Proof.
  unfold Run. destruct args as [|a args]; [done|]. cbn [length Nat.eqb].
  intros Hrun. split; [done|]. by apply runArgs_success.
Qed.

(** X8. [Run] stops at the first argument that fails: when the arguments
    [pre] have succeeded in turn and [RunTask] on the next one returns
    [err], [Run] returns that [err] in the state that call left, and the
    arguments after it are not tried; with no argument at all [Run]
    fails on the spot. *)
Theorem X8_Run_stops_at_first_failure pre a post st st1 err st2 :
  runArgs pre st = (None, st1) →
  RunTask a st1 = (Some err, st2) →
  Run (pre ++ a :: post) st = (Some err, st2)
  ∧ Run [] st = (Some (errorString "No argument given"), st).
Proof.
  intros Hpre Ha. split; [|done]. unfold Run.
  replace (length (pre ++ a :: post) =? 0)%nat with false
    by (by destruct pre).
  rewrite runArgs_app, Hpre. cbn. by rewrite Ha.
Qed.

End RunnerMore.

(** ** The program around [RunTask] *)

Section ProgramFacts.

Context {FS ExtErr : Type} {host : Host FS ExtErr}
  {loader : Loader FS ExtErr}.

Implicit Types (st : State FS) (fs : FS) (args : list string).

(** X9. [readTaskfile] decides on the first of the three files that can
    be read, in the order YAML, JSON, TOML, and stays with it: when that
    file does not decode, its error is returned and the files after it
    are not tried.  The files that cannot be read are passed over
    whatever the reason, and [ErrNoTaskFile] is returned, with no
    registry, exactly when none of the three can be read. *)
Theorem X9_readTaskfile_first_readable_file_decides fs :
  (∀ b, ioutil_ReadFile (TaskFilePath +:+ ".yml") fs = inl b →
        readTaskfile fs = decoded (yaml_Unmarshal b))
  ∧ (∀ e b, ioutil_ReadFile (TaskFilePath +:+ ".yml") fs = inr e →
            ioutil_ReadFile (TaskFilePath +:+ ".json") fs = inl b →
            readTaskfile fs = decoded (json_Unmarshal b))
  ∧ (∀ e e' b, ioutil_ReadFile (TaskFilePath +:+ ".yml") fs = inr e →
               ioutil_ReadFile (TaskFilePath +:+ ".json") fs = inr e' →
               ioutil_ReadFile (TaskFilePath +:+ ".toml") fs = inl b →
               readTaskfile fs = decoded (toml_Unmarshal b))
  ∧ (snd (readTaskfile fs) = Some ErrNoTaskFile ↔
       (∃ e, ioutil_ReadFile (TaskFilePath +:+ ".yml") fs = inr e)
       ∧ (∃ e, ioutil_ReadFile (TaskFilePath +:+ ".json") fs = inr e)
       ∧ (∃ e, ioutil_ReadFile (TaskFilePath +:+ ".toml") fs = inr e))
  ∧ (snd (readTaskfile fs) = Some ErrNoTaskFile → fst (readTaskfile fs) = ∅).
Proof.
  assert (∀ res : gmap string Task * option ExtErr,
            snd (decoded res) ≠ Some ErrNoTaskFile) as Hdec.
  { intros [tasks [e|]] H; cbn in H; unfold ErrNoTaskFile in H;
      discriminate H. }
  unfold readTaskfile.
  split; [by intros b ->|]. split; [by intros e b -> ->|].
  split; [by intros e e' b -> -> ->|].
  destruct (ioutil_ReadFile (TaskFilePath +:+ ".yml") fs) as [b|e].
  { split; [split|]; intros H; try (by apply Hdec in H).
    by destruct H as ([? ?] & _). }
  destruct (ioutil_ReadFile (TaskFilePath +:+ ".json") fs) as [b|e'].
  { split; [split|]; intros H; try (by apply Hdec in H).
    by destruct H as (_ & [? ?] & _). }
  destruct (ioutil_ReadFile (TaskFilePath +:+ ".toml") fs) as [b|e''].
  { split; [split|]; intros H; try (by apply Hdec in H).
    by destruct H as (_ & _ & [? ?]). }
  split; [split|]; try done. intros _. repeat split; by eexists.
Qed.

(** X10. [Run] as a whole.  Without arguments it fails before the task
    file is looked for; when the task file is missing or does not decode
    it fails with that error and no task has started; and when it
    succeeds, the task file was read and decoded without error, and the
    arguments are distinct names of tasks of the decoded registry, none
    marked before and all marked after. *)
Theorem X10_RunProgram_checks_before_running st :
  RunProgram [] st = (Some (errorString "No argument given"), st)
  ∧ (∀ args tasks err,
       args ≠ [] → readTaskfile (files st) = (tasks, Some err) →
       RunProgram args st = (Some err, st))
  ∧ (∀ args st',
       RunProgram args st = (None, st') →
       args ≠ []
       ∧ ∃ tasks,
           readTaskfile (files st) = (tasks, None)
           ∧ NoDup args
           ∧ ∀ a, a ∈ args →
                  (a ∉ runTasks st) ∧ is_Some (tasks !! a)
                  ∧ a ∈ runTasks st').
Proof.
  split; [done|]. split.
  - intros args tasks err Hne Hread. unfold RunProgram.
    destruct args as [|a args]; [done|]. cbn [length Nat.eqb].
    by rewrite Hread.
  - intros args st'. unfold RunProgram.
    destruct args as [|a args]; [done|]. cbn [length Nat.eqb].
    destruct (readTaskfile (files st)) as [tasks [e|]]; [done|].
    intros Hrun. split; [done|]. exists tasks. split; [done|].
    by apply (runArgs_success (host := withTasks tasks)).
Qed.

Lemma string_length_app (a s : string) :
  String.length (a +:+ s) = String.length a + String.length s.
Proof.
  induction a as [|c a IH]; [done|].
  change (S (String.length (a +:+ s))
          = S (String.length a + String.length s)). by rewrite IH.
Qed.

Lemma string_app_cancel_r (a b s : string) : a +:+ s = b +:+ s → a = b.
Proof.
  revert b. induction a as [|c a IH]; intros [|c' b] Heq.
  - done.
  - apply (f_equal String.length) in Heq.
    change (String.length s = S (String.length (b +:+ s))) in Heq.
    rewrite string_length_app in Heq. lia.
  - apply (f_equal String.length) in Heq.
    change (S (String.length (a +:+ s)) = String.length s) in Heq.
    rewrite string_length_app in Heq. lia.
  - change (String c (a +:+ s) = String c' (b +:+ s)) in Heq.
    injection Heq as -> Heq. f_equal. by apply IH.
Qed.

(** X11. The message of an error tells the task: two not-found errors
    with the same message are for the same name, and so are two
    [taskRunError] that wrap causes of the same message. *)
Theorem X11_Error_message_determines_task
    (extError : ExtErr → string) (a b : string) :
  (Error extError (taskNotFoundError a)
   = Error extError (taskNotFoundError b) → a = b)
  ∧ (∀ c c' : error ExtErr,
       Error extError c = Error extError c' →
       Error extError (taskRunError a c)
       = Error extError (taskRunError b c') → a = b).
Proof.
  split.
  - cbn [Error]. intros Heq. apply (inj (String.append _)) in Heq.
    apply (inj (String.append _)) in Heq.
    by apply string_app_cancel_r in Heq.
  - intros c c' Hc. cbn [Error]. rewrite Hc. intros Heq.
    apply (inj (String.append _)) in Heq.
    apply (inj (String.append _)) in Heq.
    by apply string_app_cancel_r in Heq.
Qed.


End ProgramFacts.

(** ** These properties at concrete registries *)


Lemma X2_witness :
  ("app" ∉ runTasks (state0 ∅))
  ∧ is_Some (Tasks (Host := miniHost chain) !! "app")
  ∧ ∃ evs,
      trace (snd (RunTask (host := miniHost chain) "app" (state0 ∅)))
      = (trace (state0 ∅) ++ evs)%list
      ∧ "app" ∈ visits evs
      ∧ ∀ n, n ∈ visits evs → is_Some (Tasks (Host := miniHost chain) !! n).
Proof.
  apply (X2_success_only_over_defined_tasks (host := miniHost chain)
           "app" (state0 ∅)).
  by_running.
Defined.

Lemma X3_witness :
  ∃ n,
    n ∈ runTasks (snd (RunTask (host := miniHost failing) "all" (state0 ∅)))
    ∧ ((taskRunError "test" (externalError "exit status 1")
        = taskNotFoundError n
        ∧ Tasks (Host := miniHost failing) !! n = None)
       ∨ ∃ cause,
           taskRunError "test" (externalError "exit status 1")
           = taskRunError n cause).
Proof.
  apply (X3_errors_name_a_marked_task (host := miniHost failing)
           "all" (state0 ∅)).
  by_running.
Defined.

Lemma X4_witness :
  environ (snd (RunTask (host := miniHost capture) "t" (state0 ∅))) !! "HOME"
  = environ (state0 ∅) !! "HOME".
Proof.
  apply (proj1 (X4_environment_written_only_at_Set_names
                  (host := miniHost capture) "t" (state0 ∅)
                  (fst (RunTask (host := miniHost capture) "t" (state0 ∅)))
                  (snd (RunTask (host := miniHost capture) "t" (state0 ∅)))
                  (surjective_pairing _))).
  intros n t Ht _. cbn in Ht. unfold capture in Ht.
  apply lookup_insert_Some in Ht as [[_ <-]|[_ Ht]]; [done|].
  by rewrite lookup_empty in Ht.
Defined.

Lemma X5_witness :
  ∃ evs,
    trace (snd (RunTask (host := miniHost upToDateRegistry) "build"
                  (state0 inOut)))
    = (trace (state0 inOut) ++ evs)%list
    ∧ (execs evs = [] →
       files (snd (RunTask (host := miniHost upToDateRegistry) "build"
                     (state0 inOut))) = files (state0 inOut)
       ∧ environ (snd (RunTask (host := miniHost upToDateRegistry) "build"
                         (state0 inOut))) = environ (state0 inOut)).
Proof.
  apply (X5_without_command_nothing_changes
           (host := miniHost upToDateRegistry) "build" (state0 inOut) None).
  by_running.
Defined.

Lemma X6_witness :
  ∃ evs,
    trace (snd (RunTask (host := miniHost failing) "all" (state0 ∅)))
    = (trace (state0 ∅) ++ evs)%list
    ∧ (length (prints evs) ≤ length (execs evs))%nat
    ∧ (length (execs evs) ≤ S (length (prints evs)))%nat
    ∧ (fst (RunTask (host := miniHost failing) "all" (state0 ∅)) = None →
       length (execs evs) = length (prints evs))
    ∧ (length (setenvs evs) ≤ length (prints evs))%nat.
Proof.
  apply (X6_each_output_printed_once (host := miniHost failing)
           "all" (state0 ∅)).
  apply surjective_pairing.
Defined.

Lemma X7_witness :
  ["lint"; "pack"] ≠ [] ∧ NoDup ["lint"; "pack"]
  ∧ ∀ a, a ∈ ["lint"; "pack"] →
         (a ∉ runTasks (state0 ∅))
         ∧ is_Some (Tasks (Host := miniHost failing) !! a)
         ∧ a ∈ runTasks (snd (Run (host := miniHost failing)
                                ["lint"; "pack"] (state0 ∅))).
Proof.
  apply (X7_Run_succeeds_only_on_distinct_defined_tasks
           (host := miniHost failing) ["lint"; "pack"] (state0 ∅)).
  by_running.
Defined.

Lemma X8_witness :
  Run (host := miniHost chain) ["app"; "lib"; "app"] (state0 ∅)
  = (Some (cyclicError "lib"),
     snd (RunTask (host := miniHost chain) "app" (state0 ∅))).
Proof.
  apply (proj1 (X8_Run_stops_at_first_failure (host := miniHost chain)
                  ["app"] "lib" ["app"] (state0 ∅)
                  (snd (RunTask (host := miniHost chain) "app" (state0 ∅)))
                  (cyclicError "lib")
                  (snd (RunTask (host := miniHost chain) "app" (state0 ∅)))
                  ltac:(by_running) ltac:(by_running))).
Defined.

Lemma X9_witness :
  readTaskfile (loader := miniLoader) yamlAndJson
  = (∅, Some (externalError "yaml: did not find expected key"))
  ∧ readTaskfile (loader := miniLoader) jsonOnly = (chain, None)
  ∧ snd (readTaskfile (loader := miniLoader) ∅) = Some ErrNoTaskFile.
Proof.
  split; [|split].
  - apply (proj1 (X9_readTaskfile_first_readable_file_decides
                    (loader := miniLoader) yamlAndJson) "Taskfile.yml").
    by_running.
  - apply (proj1 (proj2 (X9_readTaskfile_first_readable_file_decides
                           (loader := miniLoader) jsonOnly))
             "no such file" "Taskfile.json"); by_running.
  - apply (proj1 (proj2 (proj2 (proj2
             (X9_readTaskfile_first_readable_file_decides
                (loader := miniLoader) ∅))))).
    repeat split; exists "no such file"; by_running.
Defined.

Lemma X10_witness :
  RunProgram (host := miniHost ∅) (loader := miniLoader) ["app"]
    (state0 yamlAndJson)
  = (Some (externalError "yaml: did not find expected key"),
     state0 yamlAndJson)
  ∧ (["app"] ≠ []
     ∧ ∃ tasks,
         readTaskfile (loader := miniLoader) (files (state0 jsonOnly))
         = (tasks, None)
         ∧ NoDup ["app"]
         ∧ ∀ a, a ∈ ["app"] →
                (a ∉ runTasks (state0 jsonOnly)) ∧ is_Some (tasks !! a)
                ∧ a ∈ runTasks
                      (snd (RunProgram (host := miniHost ∅)
                              (loader := miniLoader) ["app"]
                              (state0 jsonOnly)))).
Proof.
  split.
  - apply (proj1 (proj2 (X10_RunProgram_checks_before_running
                           (host := miniHost ∅) (loader := miniLoader)
                           (state0 yamlAndJson))) ["app"] ∅).
    + done.
    + by_running.
  - apply (proj2 (proj2 (X10_RunProgram_checks_before_running
                           (host := miniHost ∅) (loader := miniLoader)
                           (state0 jsonOnly))) ["app"]).
    by_running.
Defined.

Lemma X11_witness :
  Error (λ e : string, e) (taskNotFoundError "build")
  = "Task " +:+ dquote +:+ "build" +:+ dquote +:+ " not found"
  ∧ "build" = "build".
Proof.
  split; [reflexivity|].
  apply (proj1 (X11_Error_message_determines_task (λ e : string, e)
                  "build" "build")).
  reflexivity.
Defined.
